(** * FineGrain: the relevance table and the marker scanner of [src/main.ts]

    A shallow embedding of the text-as-database layer of the FineGrain
    Obsidian plugin: the row format written by [createLink], the readers and
    rewriters of the relevance file ([getRelevanceData], [appendRelevance],
    [removeRelevanceItem], [deleteConnection]), the marker scanner of
    [buildDecorations] and the claim list of [ConnectionModal.onOpen].

    JavaScript strings are sequences of UTF-16 code units; a code unit is a
    number in [N] and a string is a list of them, so that [trim] can be given
    its full white-space table. *)

From Stdlib Require Import String Ascii.
From Stdlib Require Import List Sorted NArith ZArith Bool Arith Lia.
From Stdlib Require Import DecimalPos.
Import ListNotations.

(** ** Strings of code units *)

Definition char := N.
Definition jsstring := list char.

(** An ASCII literal as a JavaScript string. *)
Definition str (s : string) : jsstring :=
  map N_of_ascii (list_ascii_of_string s).

Definition NL : char := 10%N.      (* "\n" *)
Definition TAB : char := 9%N.      (* "\t" *)
Definition SP : char := 32%N.      (* " " *)
Definition PIPE : char := 124%N.   (* "|" *)
Definition HYPHEN : char := 45%N.  (* "-" *)
Definition RPAREN : char := 41%N.  (* ")" *)

Module Js.

(** [s.startsWith(p)] *)
Fixpoint startsWith (s p : jsstring) {struct p} : bool :=
  match p with
  | [] => true
  | a :: p' =>
      match s with
      | [] => false
      | b :: s' => (b =? a)%N && startsWith s' p'
      end
  end.

(** [s.includes(p)] *)
Fixpoint includes (s p : jsstring) {struct s} : bool :=
  startsWith s p ||
  match s with
  | [] => false
  | _ :: s' => includes s' p
  end.

(** Adds a code unit to the field being read. *)
Definition push_front (c : char) (fields : list jsstring) : list jsstring :=
  match fields with
  | [] => [[c]]
  | f :: rest => (c :: f) :: rest
  end.

(** The left-to-right scan of [String.prototype.split] for a separator that
    is not empty: at a position where the separator starts, the field ends and
    the scan resumes after the separator ([skip] counts the code units of the
    separator still to pass). *)
Fixpoint split_from (sep : jsstring) (skip : nat) (s : jsstring)
  : list jsstring :=
  match s with
  | [] => [[]]
  | c :: s' =>
      match skip with
      | S k => split_from sep k s'
      | O =>
          if startsWith s sep
          then [] :: split_from sep (length sep - 1) s'
          else push_front c (split_from sep 0 s')
      end
  end.

(** [s.split(sep)]; the empty separator cuts between all code units. *)
Definition split (s sep : jsstring) : list jsstring :=
  match sep with
  | [] => map (fun c => [c]) s
  | _ :: _ => split_from sep 0 s
  end.

(** [fields.join(sep)] *)
Fixpoint join (fields : list jsstring) (sep : jsstring) : jsstring :=
  match fields with
  | [] => []
  | f :: rest =>
      match rest with
      | [] => f
      | _ :: _ => f ++ sep ++ join rest sep
      end
  end.

(** White space and line terminators of ECMAScript, as removed by [trim]. *)
Definition is_ws (c : char) : bool :=
  ((9 <=? c) && (c <=? 13) || (c =? 32) || (c =? 160) || (c =? 5760)
   || (8192 <=? c) && (c <=? 8202) || (c =? 8232) || (c =? 8233)
   || (c =? 8239) || (c =? 8287) || (c =? 12288) || (c =? 65279))%N.

Fixpoint trimStart (s : jsstring) : jsstring :=
  match s with
  | [] => []
  | c :: s' => if is_ws c then trimStart s' else s
  end.

Definition trimEnd (s : jsstring) : jsstring := rev (trimStart (rev s)).

(** [s.trim()] *)
Definition trim (s : jsstring) : jsstring := trimEnd (trimStart s).

(** [s.replace(/c/g, d)] for a one-character pattern and replacement. *)
Definition replaceChar (c d : char) (s : jsstring) : jsstring :=
  map (fun x => if (x =? c)%N then d else x) s.

(** [s.slice(-k)] *)
Definition slice_last (k : nat) (s : jsstring) : jsstring :=
  skipn (length s - k) s.

(** [l.splice(i, 1)] *)
Definition splice1 {A : Type} (i : nat) (l : list A) : list A :=
  firstn i l ++ skipn (S i) l.

(** [parts[i] = v] for an index inside the array. *)
Fixpoint set_nth {A : Type} (i : nat) (v : A) (l : list A) : list A :=
  match l with
  | [] => []
  | x :: l' =>
      match i with
      | O => v :: l'
      | S j => x :: set_nth j v l'
      end
  end.

(** [\d] *)
Definition is_digit (c : char) : bool := ((48 <=? c) && (c <=? 57))%N.

(** [[ \t]] *)
Definition is_hspace (c : char) : bool := ((c =? SP) || (c =? TAB))%N.

Fixpoint uint_digits (u : Decimal.uint) : jsstring :=
  match u with
  | Decimal.Nil => []
  | Decimal.D0 u' => 48%N :: uint_digits u'
  | Decimal.D1 u' => 49%N :: uint_digits u'
  | Decimal.D2 u' => 50%N :: uint_digits u'
  | Decimal.D3 u' => 51%N :: uint_digits u'
  | Decimal.D4 u' => 52%N :: uint_digits u'
  | Decimal.D5 u' => 53%N :: uint_digits u'
  | Decimal.D6 u' => 54%N :: uint_digits u'
  | Decimal.D7 u' => 55%N :: uint_digits u'
  | Decimal.D8 u' => 56%N :: uint_digits u'
  | Decimal.D9 u' => 57%N :: uint_digits u'
  end.

(** [n.toString()] for a non-negative integer. *)
Definition toString (n : N) : jsstring := uint_digits (N.to_uint n).

End Js.

Import Js.

(** ** Configuration *)

Definition SEPARATOR : jsstring := Eval cbv in str " <br> ".

(** ** The relevance file *)

(** The vault holds the relevance file or not: [getRelevanceFile] answers
    [null] when there is none. *)
Definition vault := option jsstring.

(** [sanitize] *)
Definition sanitize (text : jsstring) : jsstring :=
  trim (replaceChar NL SP (replaceChar PIPE HYPHEN text)).

(** The needle [`| ${id} |`] of the readers and rewriters. *)
Definition rowKey (id : jsstring) : jsstring :=
  [PIPE; SP] ++ id ++ [SP; PIPE].

(** The row [`| ${id} | ${safeClaim} | ${safeRelevance} |\n`] without its
    line end. *)
Definition rowLine (id safeClaim safeRelevance : jsstring) : jsstring :=
  [PIPE; SP] ++ id ++ [SP; PIPE; SP] ++ safeClaim ++ [SP; PIPE; SP]
  ++ safeRelevance ++ [SP; PIPE].

(** The text of a new relevance file before its first row. *)
Definition header : jsstring :=
  Eval cbv in
    str "---" ++ [NL] ++ str "cssclasses: fg-database" ++ [NL] ++ str "---"
    ++ [NL] ++ [NL] ++ str "| ID | Claim | Relevance |" ++ [NL]
    ++ str "|---|---|---|" ++ [NL].

(** [Date.now().toString().slice(-6)] *)
Definition newId (now : N) : jsstring := slice_last 6 (toString now).

(** The marker [`(fg:${id})`]. *)
Definition marker (id : jsstring) : jsstring :=
  str "(fg:" ++ id ++ [RPAREN].

(** [createLink]: the new content of the vault and the text that replaces
    the selection of the editor; [now] is the value of [Date.now()]. *)
Definition createLink (now : N) (claim relevance : jsstring) (v : vault)
  : vault * jsstring :=
  let id := newId now in
  let safeClaim := sanitize claim in
  let safeRelevance := sanitize relevance in
  let row := rowLine id safeClaim safeRelevance ++ [NL] in
  (match v with
   | Some content => Some (content ++ row)
   | None => Some (header ++ row)
   end,
   [SP] ++ marker id ++ [SP]).

Record RelevanceData := { claim : jsstring; relevances : list jsstring }.

(** [s => s.trim().length > 0] *)
Definition nonblank (s : jsstring) : bool :=
  negb (Nat.eqb (length (trim s)) 0).

(** The body of the loop of [getRelevanceData] at a line that holds the key:
    the fields of the line, and the row when there are four of them. *)
Definition decodeLine (line : jsstring) : option RelevanceData :=
  let parts := map trim (split line [PIPE]) in
  if 4 <=? length parts then
    let rawRelevance := nth 3 parts [] in
    match rawRelevance with
    | [] => Some {| claim := nth 2 parts []; relevances := [] |}
    | _ :: _ =>
        Some {| claim := nth 2 parts [];
                relevances := filter nonblank (split rawRelevance SEPARATOR) |}
    end
  else None.

(** The loop of [getRelevanceData] over the lines of the file: the first
    [return] ends it, a line without four fields does not. *)
Fixpoint scanLines (key : jsstring) (lines : list jsstring)
  : option RelevanceData :=
  match lines with
  | [] => None
  | line :: rest =>
      if includes line key then
        match decodeLine line with
        | Some data => Some data
        | None => scanLines key rest
        end
      else scanLines key rest
  end.

(** [getRelevanceData] *)
Definition getRelevanceData (id : jsstring) (v : vault)
  : option RelevanceData :=
  match v with
  | None => None
  | Some content => scanLines (rowKey id) (split content [NL])
  end.

(** The new value of [parts[3]] in [appendRelevance]. *)
Definition appendCell (safeText cell : jsstring) : jsstring :=
  let current := trim cell in
  let separator := if 0 <? length current then SEPARATOR else [SP] in
  [SP] ++ current ++ separator ++ safeText ++ [SP].

(** The callback of [lines.map] in [appendRelevance]. *)
Definition appendLine (id safeText line : jsstring) : jsstring :=
  if includes line (rowKey id) then
    let parts := split line [PIPE] in
    if 4 <=? length parts then
      join (set_nth 3 (appendCell safeText (nth 3 parts [])) parts) [PIPE]
    else line
  else line.

(** [appendRelevance] *)
Definition appendRelevance (id newText : jsstring) (v : vault) : vault :=
  match v with
  | None => None
  | Some content =>
      let lines := split content [NL] in
      let safeText := sanitize newText in
      Some (join (map (appendLine id safeText) lines) [NL])
  end.

(** The new value of [parts[3]] in [removeRelevanceItem]. *)
Definition removeCell (indexToRemove : Z) (cell : jsstring) : jsstring :=
  let relArray := filter nonblank (split cell SEPARATOR) in
  let relArray' :=
    if ((0 <=? indexToRemove)
        && (indexToRemove <? Z.of_nat (length relArray)))%Z
    then splice1 (Z.to_nat indexToRemove) relArray
    else relArray in
  [SP] ++ join relArray' SEPARATOR ++ [SP].

(** The callback of [lines.map] in [removeRelevanceItem]. *)
Definition removeLine (id : jsstring) (indexToRemove : Z) (line : jsstring)
  : jsstring :=
  if includes line (rowKey id) then
    let parts := split line [PIPE] in
    if 4 <=? length parts then
      join (set_nth 3 (removeCell indexToRemove (nth 3 parts [])) parts) [PIPE]
    else line
  else line.

(** [removeRelevanceItem] *)
Definition removeRelevanceItem (id : jsstring) (indexToRemove : Z) (v : vault)
  : vault :=
  match v with
  | None => None
  | Some content =>
      Some (join (map (removeLine id indexToRemove) (split content [NL])) [NL])
  end.

(** ** Deleting a connection *)

(** The first half of [deleteConnection]: the rows of the id leave the file. *)
Definition deleteRows (id : jsstring) (v : vault) : vault :=
  match v with
  | None => None
  | Some content =>
      let lines := split content [NL] in
      let newLines := filter (fun line => negb (includes line (rowKey id))) lines in
      Some (join newLines [NL])
  end.

(** The pattern [[ \t]*\(fg:ID\)] at the start of [s]: the length of the
    match. The star is greedy and gives back what it took when the marker
    does not follow. The identifier is spliced into the pattern as it is, so
    the model is the pattern's for identifiers made of digits, the only ones
    that [createLink] and the scanner produce. *)
Fixpoint match_tag (lit s : jsstring) {struct s} : option nat :=
  let here := if startsWith s lit then Some (length lit) else None in
  match s with
  | [] => here
  | c :: s' =>
      if is_hspace c then
        match match_tag lit s' with
        | Some n => Some (S n)
        | None => here
        end
      else here
  end.

(** [s.replace(new RegExp(..., 'g'), "")]: every match, found from left to
    right and each search resumed after the one before, is left out. *)
Fixpoint replaceTag (lit : jsstring) (skip : nat) (s : jsstring) : jsstring :=
  match s with
  | [] => []
  | c :: s' =>
      match skip with
      | S k => replaceTag lit k s'
      | O =>
          match match_tag lit s with
          | Some (S n) => replaceTag lit n s'
          | _ => c :: replaceTag lit 0 s'
          end
      end
  end.

(** [lineText.replace(regex, "")] for the marker of [id]. *)
Definition stripTag (id lineText : jsstring) : jsstring :=
  replaceTag (marker id) 0 lineText.

Record Pos := { line : nat; ch : nat }.

(** The active editor: its lines and its cursor. *)
Record Editor := { doc : list jsstring; cursor : Pos }.

(** The loop over the lines of the editor, from line [i] on, with its
    [break] at the first line that holds the marker. *)
Fixpoint stripLoop (id : jsstring) (currentCursor : Pos) (i : nat)
  (lines : list jsstring) : list jsstring * Pos :=
  match lines with
  | [] => ([], currentCursor)
  | lineText :: rest =>
      if includes lineText (marker id) then
        let newLineText := stripTag id lineText in
        (newLineText :: rest,
         if Nat.eqb (line currentCursor) i
         then {| line := i; ch := Nat.min (ch currentCursor) (length newLineText) |}
         else currentCursor)
      else
        let (rest', c) := stripLoop id currentCursor (S i) rest in
        (lineText :: rest', c)
  end.

(** The second half of [deleteConnection]. *)
Definition stripMarker (id : jsstring) (e : Editor) : Editor :=
  let (lines', c) := stripLoop id (cursor e) 0 (doc e) in
  {| doc := lines'; cursor := c |}.

(** [deleteConnection]; there may be no active editor. *)
Definition deleteConnection (id : jsstring) (v : vault) (view : option Editor)
  : vault * option Editor :=
  (deleteRows id v, option_map (stripMarker id) view).

(** ** The marker scanner *)

Record Deco := { from : nat; to : nat; widget : jsstring }.

(** [\d+\)] at the start of [s]: the digits taken. The plus is greedy. *)
Fixpoint digits_close (s : jsstring) : option jsstring :=
  match s with
  | [] => None
  | c :: s' =>
      if is_digit c then
        match digits_close s' with
        | Some ds => Some (c :: ds)
        | None =>
            match s' with
            | d :: _ => if (d =? RPAREN)%N then Some [c] else None
            | [] => None
            end
        end
      else None
  end.

(** [\(fg:(\d+)\)] at the start of [s]: the captured group. *)
Definition match_marker (s : jsstring) : option jsstring :=
  if startsWith s (str "(fg:") then digits_close (skipn 4 s) else None.

(** The loop [while ((match = regex.exec(text)))] of a global pattern: the
    matches from left to right, each search resumed at the end of the match
    before; [pos] is the offset of [s] in the document. *)
Fixpoint execAll (pos skip : nat) (s : jsstring) : list Deco :=
  match s with
  | [] => []
  | _ :: s' =>
      match skip with
      | S k => execAll (S pos) k s'
      | O =>
          match match_marker s with
          | Some id =>
              {| from := pos; to := pos + (5 + length id); widget := id |}
              :: execAll (S pos) (4 + length id) s'
          | None => execAll (S pos) 0 s'
          end
      end
  end.

(** [view.state.doc.sliceString(from, to)] *)
Definition sliceString (text : jsstring) (a b : nat) : jsstring :=
  firstn (b - a) (skipn a text).

(** [buildDecorations] over the visible ranges of the document. *)
Definition buildDecorations (text : jsstring) (visibleRanges : list (nat * nat))
  : list Deco :=
  flat_map (fun r => execAll (fst r) 0 (sliceString text (fst r) (snd r)))
           visibleRanges.

(** ** The claim list of the create prompt *)

(** [l => l.trim().startsWith("-")] *)
Definition isClaimLine (l : jsstring) : bool := startsWith (trim l) [HYPHEN].

(** [l => l.replace(/^- /, "").trim()] *)
Definition claimText (l : jsstring) : jsstring :=
  trim (if startsWith l [HYPHEN; SP] then skipn 2 l else l).

(** The claims of [ConnectionModal.onOpen]; [file] is the text of the claims
    file when there is one. *)
Definition onOpen_claims (file : option jsstring) : list jsstring :=
  match file with
  | None => []
  | Some text => map claimText (filter isClaimLine (split text [NL]))
  end.

(** ** The specification's wording, for comparison *)

(** The reader as the specification words it: the row decoded from the first
    line that holds the key, whatever the line is. *)
Definition readRow_spec (id : jsstring) (v : vault) : option RelevanceData :=
  match v with
  | None => None
  | Some content =>
      match find (fun l => includes l (rowKey id)) (split content [NL]) with
      | Some l => decodeLine l
      | None => None
      end
  end.

(** The claim list as the specification words it: the lines that start
    with a hyphen and a space, without that prefix and trimmed. *)
Definition claims_spec (text : jsstring) : list jsstring :=
  map (fun l => trim (skipn 2 l))
      (filter (fun l => startsWith l [HYPHEN; SP]) (split text [NL])).

(** ** Well-formed texts *)

(** A line of a file holds no line end; a field of a row holds no column
    delimiter. *)
Definition no_newline (l : jsstring) : Prop := ~ In NL l.
Definition no_pipe (l : jsstring) : Prop := ~ In PIPE l.

(** A line that [getRelevanceData] can decode: it holds the key and has the
    four fields. *)
Definition isRowOf (key line : jsstring) : bool :=
  includes line key && (4 <=? length (split line [PIPE])).

(** A row of the table with an arbitrary third cell, white space around
    the items included: [rowLine] writes one space on each side, the
    rewriters may leave more. *)
Definition rowOf (id safeClaim cell : jsstring) : jsstring :=
  [PIPE; SP] ++ id ++ [SP; PIPE; SP] ++ safeClaim ++ [SP; PIPE]
  ++ cell ++ [PIPE].

(** The lines of [header]. *)
Definition headerLines : list jsstring :=
  Eval cbv in
    [str "---"; str "cssclasses: fg-database"; str "---"; [];
     str "| ID | Claim | Relevance |"; str "|---|---|---|"].

(** An item that does not collide with the separator that follows it: it
    does not hold [SEPARATOR] and does not end with the separator less its
    last space. *)
Definition endSafe (item : jsstring) : Prop :=
  includes (item ++ [SP]) SEPARATOR = false.

(** An item that does not collide with the separator on either side:
    written between two spaces, as it stands in a cell, it does not hold
    [SEPARATOR]. *)
Definition cellSafe (item : jsstring) : Prop :=
  includes ([SP] ++ item ++ [SP]) SEPARATOR = false.

(** An item as the data model has it, left as it is by [sanitize] and not
    empty, that the reader finds again in a cell. *)
Definition goodItem (item : jsstring) : Prop :=
  sanitize item = item /\ item <> [] /\ endSafe item.

(** The same, for [removeRelevanceItem], which splits the cell before it
    trims. *)
Definition safeItem (item : jsstring) : Prop :=
  sanitize item = item /\ item <> [] /\ cellSafe item.

(** The fields that [split] finds in a cell: the items, the first with
    the white space before it and the last with the white space after it. *)
Fixpoint pad_last (pr : jsstring) (items : list jsstring) : list jsstring :=
  match items with
  | [] => []
  | a :: rest =>
      match rest with
      | [] => [a ++ pr]
      | _ :: _ => a :: pad_last pr rest
      end
  end.

Definition pad_first (pl : jsstring) (items : list jsstring) : list jsstring :=
  match items with
  | [] => []
  | a :: rest => (pl ++ a) :: rest
  end.

(** White space made of spaces only, as the code writes it around the
    items of a cell. *)
Definition spaces (w : jsstring) : Prop :=
  forallb (fun c => (c =? SP)%N) w = true.

(** The items after [removeRelevanceItem]. *)
Definition itemsWithout (indexToRemove : Z) (items : list jsstring)
  : list jsstring :=
  if ((0 <=? indexToRemove)
      && (indexToRemove <? Z.of_nat (length items)))%Z
  then splice1 (Z.to_nat indexToRemove) items
  else items.

(** ** The button of a marker and the display of a row *)

(** The state of [DisplayModal] that its handlers read and write. *)
Record DisplayModal := {
  modalId : jsstring;
  modalClaim : jsstring;
  modalRelevances : list jsstring
}.

(** What a click on the button of a marker brings up. *)
Inductive Clicked :=
| Opened (m : DisplayModal)
| Notice (text : jsstring).

(** [span.onclick] of [AIButtonWidget.toDOM], on the store as it is at the
    click. *)
Definition onclick (id : jsstring) (v : vault) : Clicked :=
  match getRelevanceData id v with
  | Some data =>
      Opened {| modalId := id;
                modalClaim := claim data;
                modalRelevances := relevances data |}
  | None => Notice (str "Connection not found (ID: " ++ id ++ str ")")
  end.

(** [addBtn.onclick] of [DisplayModal.render]: the store and the list of
    the display after the click; [input] is the value of the text area. *)
Definition addNote (input : jsstring) (m : DisplayModal) (v : vault)
  : vault * DisplayModal :=
  if 0 <? length (trim input) then
    (appendRelevance (modalId m) input v,
     {| modalId := modalId m;
        modalClaim := modalClaim m;
        modalRelevances :=
          modalRelevances m
          ++ [trim (replaceChar NL SP (replaceChar PIPE HYPHEN input))] |})
  else (v, m).

(** [delBtn.onclick] of the item at [index] in [DisplayModal.render]. *)
Definition deleteNote (index : nat) (m : DisplayModal) (v : vault)
  : vault * DisplayModal :=
  (removeRelevanceItem (modalId m) (Z.of_nat index) v,
   {| modalId := modalId m;
      modalClaim := modalClaim m;
      modalRelevances := splice1 index (modalRelevances m) |}).

(** ** The shape of the relevance file *)

(** The last line of the file is empty: the file is empty or ends with a
    line end, so that what [createLink] appends starts a line. *)
Definition lastLineEmpty (content : jsstring) : Prop :=
  last (split content [NL]) [] = [].

Definition storeOK (v : vault) : Prop :=
  match v with
  | None => True
  | Some content => lastLineEmpty content
  end.

(** The one relevance of a new row, as [getRelevanceData] reads it. *)
Definition firstItems (safeRelevance : jsstring) : list jsstring :=
  match safeRelevance with
  | [] => []
  | _ :: _ => [safeRelevance]
  end.

(** The cursor is on a line of the document and not past its end. *)
Definition cursorInside (e : Editor) : Prop :=
  line (cursor e) < length (doc e)
  /\ ch (cursor e) <= length (nth (line (cursor e)) (doc e) []).

(** * Properties *)

(** ** Prefixes and occurrences *)

Section Occurrences.

Lemma startsWith_app (p r : jsstring) : startsWith (p ++ r) p = true.
Proof.
  induction p as [|a p IH]; simpl; [reflexivity|].
  now rewrite N.eqb_refl, IH.
Qed.

Lemma startsWith_inv (p s : jsstring) :
  startsWith s p = true -> exists r, s = p ++ r.
Proof.
  revert s; induction p as [|a p IH]; intros s H.
  - now exists s.
  - destruct s as [|b s]; simpl in H; [discriminate|].
    apply andb_true_iff in H as [Hb Hs].
    apply N.eqb_eq in Hb; subst b.
    destruct (IH _ Hs) as [r ->]. now exists r.
Qed.

(** A prefix test that the first part of the text already settles. *)
Lemma startsWith_app_long (p a b : jsstring) :
  length p <= length a -> startsWith (a ++ b) p = startsWith a p.
Proof.
  revert a; induction p as [|x p IH]; intros a Hl; [reflexivity|].
  destruct a as [|y a]; simpl in *; [lia|].
  rewrite IH by lia. reflexivity.
Qed.

Lemma startsWith_includes (s p : jsstring) :
  startsWith s p = true -> includes s p = true.
Proof. destruct s; simpl; intros ->; reflexivity. Qed.

Lemma includes_app (a p b : jsstring) : includes (a ++ p ++ b) p = true.
Proof.
  induction a as [|x a IH]; simpl.
  - apply startsWith_includes, startsWith_app.
  - rewrite IH. apply orb_true_r.
Qed.

Lemma includes_inv (p s : jsstring) :
  includes s p = true -> exists a b, s = a ++ p ++ b.
Proof.
  induction s as [|x s IH]; simpl; intros H.
  - rewrite orb_false_r in H. destruct (startsWith_inv _ _ H) as [r ->].
    now exists [], r.
  - apply orb_true_iff in H as [H|H].
    + destruct (startsWith_inv _ _ H) as [r ->]. now exists [], r.
    + destruct (IH H) as (a & b & ->). now exists (x :: a), b.
Qed.

Lemma includes_false_cons (x : char) (s p : jsstring) :
  includes (x :: s) p = false ->
  startsWith (x :: s) p = false /\ includes s p = false.
Proof. simpl; intros H. now apply orb_false_iff in H. Qed.

(** No occurrence in the whole, none at any cut. *)
Lemma includes_false_suffix (a b p : jsstring) :
  includes (a ++ b) p = false -> includes b p = false.
Proof.
  induction a as [|x a IH]; simpl; intros H; [exact H|].
  apply orb_false_iff in H as [_ H]. auto.
Qed.

Lemma includes_false_startsWith (s p : jsstring) :
  includes s p = false -> startsWith s p = false.
Proof. destruct s; simpl; intros H; now apply orb_false_iff in H. Qed.

Lemma includes_false_prefix (a b p : jsstring) :
  includes (a ++ b) p = false -> includes a p = false.
Proof.
  intros H. destruct (includes a p) eqn:E; [|reflexivity].
  destruct (includes_inv _ _ E) as (u & v & ->).
  rewrite <- !app_assoc in H. now rewrite includes_app in H.
Qed.

(** What occurs in a text is made of code units of the text. *)
Lemma includes_In (s p : jsstring) (c : char) :
  includes s p = true -> In c p -> In c s.
Proof.
  intros H Hc. destruct (includes_inv _ _ H) as (a & b & ->).
  apply in_or_app; right. apply in_or_app; now left.
Qed.

End Occurrences.

(** ** Splitting and joining *)

Section SplitJoin.

Lemma split_from_not_nil (sep : jsstring) (k : nat) (s : jsstring) :
  split_from sep k s <> [].
Proof.
  revert k; induction s as [|c s IH]; intros k; simpl; [discriminate|].
  destruct k; [|apply IH].
  destruct (startsWith (c :: s) sep); [discriminate|].
  specialize (IH 0). destruct (split_from sep 0 s); [contradiction|discriminate].
Qed.

(** Passing over what is left of a separator. *)
Lemma split_from_skip (sep p s : jsstring) :
  split_from sep (length p) (p ++ s) = split_from sep 0 s.
Proof. induction p as [|x p IH]; simpl; [reflexivity|exact IH]. Qed.

Lemma split_nil (sep : jsstring) : sep <> [] -> split [] sep = [[]].
Proof. destruct sep; [contradiction|reflexivity]. Qed.

Lemma split_at_sep (sep s : jsstring) :
  sep <> [] -> split (sep ++ s) sep = [] :: split s sep.
Proof.
  destruct sep as [|x sep]; [contradiction|]; intros _.
  unfold split. change ((x :: sep) ++ s) with (x :: (sep ++ s)).
  cbn [split_from]. change (x :: sep ++ s) with ((x :: sep) ++ s).
  rewrite startsWith_app.
  replace (length (x :: sep) - 1) with (length sep) by (simpl; lia).
  now rewrite split_from_skip.
Qed.

Lemma split_cons_other (sep : jsstring) (c : char) (s : jsstring) :
  startsWith (c :: s) sep = false ->
  split (c :: s) sep = push_front c (split s sep).
Proof.
  destruct sep as [|x sep]; [discriminate|]; intros H.
  unfold split. cbn [split_from]. now rewrite H.
Qed.

(** The first field ends at the first separator. *)
Lemma split_app_sep (sep a b : jsstring) :
  sep <> [] ->
  (forall a1 a2, a = a1 ++ a2 -> a2 <> [] ->
                 startsWith (a2 ++ sep ++ b) sep = false) ->
  split (a ++ sep ++ b) sep = a :: split b sep.
Proof.
  intros Hsep. induction a as [|c a IH]; intros H.
  - simpl. now apply split_at_sep.
  - change ((c :: a) ++ sep ++ b) with (c :: (a ++ sep ++ b)).
    rewrite split_cons_other.
    + rewrite IH; [reflexivity|].
      intros a1 a2 -> Ha2. apply (H (c :: a1) a2); [reflexivity|exact Ha2].
    + apply (H [] (c :: a)); [reflexivity|discriminate].
Qed.

(** A text without the separator is one field. *)
Lemma split_none (sep a : jsstring) :
  sep <> [] -> includes a sep = false -> split a sep = [a].
Proof.
  intros Hsep. induction a as [|c a IH]; intros H.
  - now apply split_nil.
  - apply includes_false_cons in H as [H1 H2].
    rewrite split_cons_other by exact H1. now rewrite IH.
Qed.

Lemma join_cons (f : jsstring) (rest : list jsstring) (sep : jsstring) :
  rest <> [] -> join (f :: rest) sep = f ++ sep ++ join rest sep.
Proof. destruct rest; [contradiction|reflexivity]. Qed.

Lemma join_push_front (c : char) (fields : list jsstring) (sep : jsstring) :
  fields <> [] -> join (push_front c fields) sep = c :: join fields sep.
Proof.
  destruct fields as [|f [|g rest]]; [contradiction| |]; reflexivity.
Qed.

(** Joining the fields of a text gives the text back. *)
Lemma join_split_from (sep : jsstring) (k : nat) (s : jsstring) :
  sep <> [] -> join (split_from sep k s) sep = skipn k s.
Proof.
  intros Hsep. revert k; induction s as [|c s IH]; intros k.
  - now destruct k.
  - destruct k; cbn [split_from skipn]; [|apply IH].
    destruct (startsWith (c :: s) sep) eqn:E.
    + rewrite join_cons by apply split_from_not_nil.
      rewrite IH. destruct (startsWith_inv _ _ E) as [r Hr].
      destruct sep as [|x sep]; [contradiction|]. simpl in *.
      injection Hr as -> ->. rewrite Nat.sub_0_r.
      rewrite skipn_app, skipn_all, Nat.sub_diag. reflexivity.
    + rewrite join_push_front by apply split_from_not_nil.
      now rewrite IH.
Qed.

Lemma join_split (s sep : jsstring) : sep <> [] -> join (split s sep) sep = s.
Proof.
  destruct sep; [contradiction|]; intros H.
  unfold split. now rewrite join_split_from.
Qed.

(** One-character separators: a field is a text without the character. *)
Lemma startsWith_char (c x : char) (s : jsstring) :
  startsWith (x :: s) [c] = (x =? c)%N.
Proof. simpl. apply andb_true_r. Qed.

Lemma split_char_app (c : char) (a b : jsstring) :
  ~ In c a -> split (a ++ c :: b) [c] = a :: split b [c].
Proof.
  intros Ha. apply (split_app_sep [c] a b); [discriminate|].
  intros a1 a2 -> Hne. destruct a2 as [|x a2]; [contradiction|].
  simpl. rewrite andb_true_r. apply N.eqb_neq. intros ->.
  apply Ha, in_or_app. right; now left.
Qed.

Lemma split_char_none (c : char) (a : jsstring) :
  ~ In c a -> split a [c] = [a].
Proof.
  intros Ha. apply split_none; [discriminate|].
  destruct (includes a [c]) eqn:E; [|reflexivity].
  exfalso. apply Ha. apply (includes_In _ _ c E). now left.
Qed.

(** Splitting a joined list of fields gives the fields back. *)
Lemma split_join_char (c : char) (fields : list jsstring) :
  fields <> [] -> Forall (fun f => ~ In c f) fields ->
  split (join fields [c]) [c] = fields.
Proof.
  induction fields as [|f rest IH]; [contradiction|]; intros _ HF.
  inversion HF as [|? ? Hf Hrest]; subst.
  destruct rest as [|g rest].
  - now apply split_char_none.
  - rewrite join_cons by discriminate. change ([c] ++ ?x) with (c :: x).
    rewrite split_char_app by exact Hf. f_equal.
    apply IH; [discriminate|exact Hrest].
Qed.

(** The fields that a one-character separator cuts do not hold it. *)
Lemma split_no_char (c : char) (s : jsstring) :
  Forall (fun f => ~ In c f) (split s [c]).
Proof.
  unfold split. induction s as [|x s IH]; cbn [split_from].
  - constructor; [intros []|constructor].
  - rewrite startsWith_char. simpl length. simpl Nat.sub.
    destruct (N.eqb_spec x c) as [->|Hx].
    + constructor; [intros []|exact IH].
    + pose proof (split_from_not_nil [c] 0 s) as Hne.
      destruct (split_from [c] 0 s) as [|f rest]; [contradiction|].
      inversion IH; subst. simpl. constructor; [|assumption].
      intros [H|H]; [now apply Hx|contradiction].
Qed.

End SplitJoin.

(** ** Trimming and sanitizing *)

Section Trim.

Lemma trimStart_ws_app (w s : jsstring) :
  forallb is_ws w = true -> trimStart (w ++ s) = trimStart s.
Proof.
  induction w as [|c w IH]; simpl; intros H; [reflexivity|].
  apply andb_true_iff in H as [-> H]. auto.
Qed.

Lemma trimStart_keep (c : char) (s : jsstring) :
  is_ws c = false -> trimStart (c :: s) = c :: s.
Proof. simpl; now intros ->. Qed.

(** What [trimStart] leaves begins with a code unit that is not white. *)
Lemma trimStart_decomp (s : jsstring) :
  exists w, s = w ++ trimStart s /\ forallb is_ws w = true
            /\ (trimStart s = [] \/
                exists c r, trimStart s = c :: r /\ is_ws c = false).
Proof.
  induction s as [|c s (w & Hs & Hw & Hh)]; simpl.
  - exists []; auto.
  - destruct (is_ws c) eqn:E.
    + exists (c :: w). simpl. rewrite E, Hw. repeat split; auto.
      now rewrite Hs at 1.
    + exists []. repeat split; auto. right; now exists c, s.
Qed.

Lemma forallb_rev (A : Type) (f : A -> bool) (l : list A) :
  forallb f (rev l) = forallb f l.
Proof.
  induction l as [|x l IH]; simpl; [reflexivity|].
  rewrite forallb_app, IH. simpl. rewrite andb_true_r. apply andb_comm.
Qed.

Lemma trimEnd_app_ws (s w : jsstring) :
  forallb is_ws w = true -> trimEnd (s ++ w) = trimEnd s.
Proof.
  intros H. unfold trimEnd. rewrite rev_app_distr.
  rewrite trimStart_ws_app; [reflexivity|now rewrite forallb_rev].
Qed.

Lemma trimEnd_keep (s : jsstring) (c : char) :
  is_ws c = false -> trimEnd (s ++ [c]) = s ++ [c].
Proof.
  intros H. unfold trimEnd. rewrite rev_app_distr. simpl.
  rewrite H. simpl. now rewrite rev_involutive.
Qed.

Lemma trimEnd_decomp (s : jsstring) :
  exists w, s = trimEnd s ++ w /\ forallb is_ws w = true
            /\ (trimEnd s = [] \/
                exists r c, trimEnd s = r ++ [c] /\ is_ws c = false).
Proof.
  unfold trimEnd.
  destruct (trimStart_decomp (rev s)) as (w & Hs & Hw & Hh).
  exists (rev w). repeat split.
  - rewrite <- rev_app_distr, <- Hs. now rewrite rev_involutive.
  - now rewrite forallb_rev.
  - destruct Hh as [->|(c & r & -> & Hc)]; [now left|right].
    exists (rev r), c. now split.
Qed.

(** A string is the trimmed string between two runs of white space. *)
Lemma trim_decomp (s : jsstring) :
  exists w1 w2, s = w1 ++ trim s ++ w2
                /\ forallb is_ws w1 = true /\ forallb is_ws w2 = true.
Proof.
  unfold trim.
  destruct (trimStart_decomp s) as (w1 & Hs & Hw1 & _).
  destruct (trimEnd_decomp (trimStart s)) as (w2 & Hu & Hw2 & _).
  exists w1, w2. repeat split; auto. now rewrite <- Hu.
Qed.

Lemma trim_In (c : char) (s : jsstring) : In c (trim s) -> In c s.
Proof.
  intros H. destruct (trim_decomp s) as (w1 & w2 & Hs & _).
  rewrite Hs. apply in_or_app; right. apply in_or_app; now left.
Qed.

Lemma trim_length (s : jsstring) : length (trim s) <= length s.
Proof.
  destruct (trim_decomp s) as (w1 & w2 & Hs & _).
  rewrite Hs at 2. rewrite !length_app. lia.
Qed.

(** The two ends of a string that [trim] leaves as it is. *)
Lemma trim_fixed_ends (x : jsstring) :
  trim x = x ->
  x = [] \/
  (exists c r, x = c :: r /\ is_ws c = false) /\
  (exists r c, x = r ++ [c] /\ is_ws c = false).
Proof.
  intros H. destruct x as [|c r]; [now left|right].
  assert (Hc : is_ws c = false).
  { destruct (is_ws c) eqn:E; [exfalso|reflexivity].
    unfold trim in H. simpl in H. rewrite E in H.
    pose proof (trim_length r) as Hl. unfold trim in Hl.
    rewrite H in Hl. simpl in Hl. lia. }
  split; [now exists c, r|].
  unfold trim in H. rewrite trimStart_keep in H by exact Hc.
  destruct (trimEnd_decomp (c :: r)) as (_ & _ & _ & [E|(r' & c' & E & Hc')]);
    rewrite H in E; [discriminate|].
  now exists r', c'.
Qed.

(** Padding with white space is undone by [trim]. *)
Lemma trim_pad (pl x pr : jsstring) :
  trim x = x -> forallb is_ws pl = true -> forallb is_ws pr = true ->
  trim (pl ++ x ++ pr) = x.
Proof.
  intros Hx Hl Hr. unfold trim. rewrite trimStart_ws_app by exact Hl.
  destruct (trim_fixed_ends x Hx) as [->|[(c & r & E & Hc) (r' & c' & E' & Hc')]].
  - simpl. rewrite <- (app_nil_r pr), trimStart_ws_app by exact Hr. reflexivity.
  - rewrite E at 1. simpl app. rewrite trimStart_keep by exact Hc.
    change (c :: r ++ pr) with ((c :: r) ++ pr). rewrite <- E.
    rewrite trimEnd_app_ws by exact Hr. rewrite E'.
    now apply trimEnd_keep.
Qed.

Lemma trim_ws (w : jsstring) : forallb is_ws w = true -> trim w = [].
Proof.
  intros H. rewrite <- (app_nil_r w). change [] with ([] ++ @nil char) at 1.
  now apply (trim_pad w [] []).
Qed.

Lemma trim_idem (s : jsstring) : trim (trim s) = trim s.
Proof.
  unfold trim at 2 3.
  destruct (trimStart_decomp s) as (_ & _ & _ & Hh).
  destruct (trimEnd_decomp (trimStart s)) as (w & Hu & _ & Ht).
  destruct Ht as [->|(r & c & E & Hc)]; [reflexivity|].
  rewrite E. unfold trim.
  destruct Hh as [Hn|(c0 & r0 & E0 & Hc0)].
  - rewrite Hn in E. destruct r; discriminate.
  - assert (Hhead : exists t, r ++ [c] = c0 :: t).
    { rewrite E in Hu. rewrite E0 in Hu. destruct r as [|y r]; simpl in *.
      - injection Hu as <- _. now exists [].
      - injection Hu as <- _. now exists (r ++ [c]). }
    destruct Hhead as [t Ht]. rewrite Ht, trimStart_keep by exact Hc0.
    rewrite <- Ht. now apply trimEnd_keep.
Qed.

Lemma replaceChar_absent (c d : char) (s : jsstring) :
  ~ In c s -> replaceChar c d s = s.
Proof.
  induction s as [|x s IH]; simpl; intros H; [reflexivity|].
  destruct (N.eqb_spec x c) as [->|_]; [exfalso; apply H; now left|].
  rewrite IH; [reflexivity|]. intros Hc; apply H; now right.
Qed.

Lemma replaceChar_gone (c d : char) (s : jsstring) :
  d <> c -> ~ In c (replaceChar c d s).
Proof.
  intros Hd. induction s as [|x s IH]; simpl; [tauto|].
  intros [H|H]; [|contradiction].
  destruct (N.eqb_spec x c); congruence.
Qed.

Lemma replaceChar_keeps_out (a c d : char) (s : jsstring) :
  d <> a -> ~ In a s -> ~ In a (replaceChar c d s).
Proof.
  intros Hd. induction s as [|x s IH]; simpl; [tauto|].
  intros Hs [H|H].
  - destruct (N.eqb_spec x c); [congruence|]. apply Hs; now left.
  - apply IH; [|exact H]. intros Hx; apply Hs; now right.
Qed.

Lemma sanitize_no_pipe (t : jsstring) : ~ In PIPE (sanitize t).
Proof.
  unfold sanitize. intros H. apply trim_In in H. revert H.
  apply replaceChar_keeps_out; [discriminate|].
  apply replaceChar_gone. discriminate.
Qed.

Lemma sanitize_no_newline (t : jsstring) : ~ In NL (sanitize t).
Proof.
  unfold sanitize. intros H. apply trim_In in H. revert H.
  apply replaceChar_gone. discriminate.
Qed.

Lemma sanitize_trimmed (t : jsstring) : trim (sanitize t) = sanitize t.
Proof. unfold sanitize. apply trim_idem. Qed.

(** [sanitize] changes nothing in what it has produced. *)
Lemma sanitize_idem (t : jsstring) : sanitize (sanitize t) = sanitize t.
Proof.
  unfold sanitize at 1.
  rewrite (replaceChar_absent PIPE HYPHEN) by apply sanitize_no_pipe.
  rewrite (replaceChar_absent NL SP) by apply sanitize_no_newline.
  apply sanitize_trimmed.
Qed.

(** The strings that [sanitize] leaves as they are: no column delimiter, no
    line end, no white space at either end. *)
Lemma sanitized_no_pipe (x : jsstring) : sanitize x = x -> no_pipe x.
Proof. intros <-. apply sanitize_no_pipe. Qed.

Lemma sanitized_no_newline (x : jsstring) : sanitize x = x -> no_newline x.
Proof. intros <-. apply sanitize_no_newline. Qed.

Lemma sanitized_trimmed (x : jsstring) : sanitize x = x -> trim x = x.
Proof. intros <-. apply sanitize_trimmed. Qed.

Lemma nonblank_pad (pl x pr : jsstring) :
  trim x = x -> x <> [] ->
  forallb is_ws pl = true -> forallb is_ws pr = true ->
  nonblank (pl ++ x ++ pr) = true.
Proof.
  intros Hx Hne Hl Hr. unfold nonblank. rewrite trim_pad by assumption.
  destruct x; [contradiction|reflexivity].
Qed.

End Trim.

(** ** Files as lines *)

Section Lines.

Lemma lines_of_join (lines : list jsstring) :
  lines <> [] -> Forall no_newline lines ->
  split (join lines [NL]) [NL] = lines.
Proof. apply split_join_char. Qed.

Lemma fields_of_join (fields : list jsstring) :
  fields <> [] -> Forall no_pipe fields ->
  split (join fields [PIPE]) [PIPE] = fields.
Proof. apply split_join_char. Qed.

End Lines.

(** ** Deleting the rows of an id *)

(** C5. For every relevance file and every id: the file is its lines
    joined by line ends, and [deleteConnection] writes back, joined in the
    same way, the lines that do not hold [| id |], all of them, as they were
    and in their order, and none of the lines that hold it, however many
    there are; when lines are left, they are the lines of the new file. *)
Theorem deleteConnection_keeps_other_lines (id content : jsstring)
    (view : option Editor) :
  let lines := split content [NL] in
  let kept := filter (fun l => negb (includes l (rowKey id))) lines in
  content = join lines [NL]
  /\ Forall no_newline lines
  /\ fst (deleteConnection id (Some content) view) = Some (join kept [NL])
  /\ (forall l, In l kept <-> In l lines /\ includes l (rowKey id) = false)
  /\ (kept <> [] -> split (join kept [NL]) [NL] = kept).
Proof.
  intros lines kept.
  assert (HF : Forall no_newline lines) by apply split_no_char.
  split; [|split; [|split; [|split]]].
  - symmetry. apply join_split. discriminate.
  - exact HF.
  - reflexivity.
  - intros l. unfold kept. rewrite filter_In, negb_true_iff. reflexivity.
  - intros Hk. apply lines_of_join; [exact Hk|].
    apply Forall_forall. intros l Hl. apply filter_In in Hl as [Hl _].
    revert l Hl. now apply Forall_forall.
Qed.

(** ** Reading a row *)

Section Reading.

Lemma decodeLine_some (l : jsstring) :
  (4 <=? length (split l [PIPE])) = true -> decodeLine l <> None.
Proof.
  intros H. unfold decodeLine. rewrite length_map, H.
  destruct (nth 3 (map trim (split l [PIPE])) []); discriminate.
Qed.

Lemma decodeLine_none (l : jsstring) :
  (4 <=? length (split l [PIPE])) = false -> decodeLine l = None.
Proof. intros H. unfold decodeLine. now rewrite length_map, H. Qed.

(** The loop stops at the first line that holds the key and has four
    fields. *)
Lemma scanLines_find (key : jsstring) (lines : list jsstring) :
  scanLines key lines =
  match find (isRowOf key) lines with
  | Some l => decodeLine l
  | None => None
  end.
Proof.
  induction lines as [|l rest IH]; [reflexivity|].
  cbn [scanLines find]. unfold isRowOf at 1.
  destruct (includes l key); [|exact IH]. cbn [andb].
  destruct (4 <=? length (split l [PIPE])) eqn:E.
  - pose proof (decodeLine_some l E). destruct (decodeLine l); congruence.
  - now rewrite (decodeLine_none l E).
Qed.

End Reading.

(** C6, amended. [getRelevanceData] answers the row decoded from the first
    line, from the top, that holds [| id |] and has at least four fields, and
    such a line always decodes; it answers nothing when there is no such
    line, in particular when no line holds [| id |], and when the file does
    not exist. *)
Theorem getRelevanceData_first_row (id : jsstring) :
  getRelevanceData id None = None
  /\ (forall content,
        getRelevanceData id (Some content) =
        match find (isRowOf (rowKey id)) (split content [NL]) with
        | Some l => decodeLine l
        | None => None
        end)
  /\ (forall l, isRowOf (rowKey id) l = true -> decodeLine l <> None)
  /\ (forall content,
        (forall l, In l (split content [NL]) -> includes l (rowKey id) = false) ->
        getRelevanceData id (Some content) = None).
Proof.
  split; [reflexivity|]. split; [|split].
  - intros content. apply scanLines_find.
  - intros l H. apply andb_true_iff in H as [_ H]. now apply decodeLine_some.
  - intros content H. unfold getRelevanceData. rewrite scanLines_find.
    destruct (find _ _) as [l|] eqn:E; [|reflexivity].
    apply find_some in E as [Hin Hrow]. unfold isRowOf in Hrow.
    rewrite (H l Hin) in Hrow. discriminate.
Qed.

(** C6 as stated fails: the first line that holds [| 7 |] has no fourth
    field, the reader goes on and answers the row of the line after it,
    where the wording of the specification has nothing to answer. *)
Lemma getRelevanceData_skips_short_line :
  let content := str "| 7 |" ++ [NL] ++ str "| 7 | c | r |" in
  getRelevanceData (str "7") (Some content)
    = Some {| claim := str "c"; relevances := [str "r"] |}
  /\ readRow_spec (str "7") (Some content) = None
  /\ getRelevanceData (str "7") (Some content)
     <> readRow_spec (str "7") (Some content).
Proof. repeat split. discriminate. Qed.

(** ** The claim list *)

Section Claims.

Lemma trimEnd_head (c : char) (r : jsstring) :
  is_ws c = false -> exists r', trimEnd (c :: r) = c :: r'.
Proof.
  intros Hc. destruct (trimEnd_decomp (c :: r)) as (w & Hs & Hw & _).
  destruct (trimEnd (c :: r)) as [|c' r'].
  - simpl in Hs. subst w. simpl in Hw. now rewrite Hc in Hw.
  - injection Hs as <- _. now exists r'.
Qed.

(** A line is taken when a hyphen follows its leading white space. *)
Lemma isClaimLine_iff (l : jsstring) :
  isClaimLine l = true <->
  exists w r, l = w ++ HYPHEN :: r /\ forallb is_ws w = true.
Proof.
  unfold isClaimLine. split.
  - intros H. destruct (startsWith_inv _ _ H) as [r Hr].
    destruct (trim_decomp l) as (w1 & w2 & Hl & Hw1 & _).
    exists w1, (r ++ w2). split; [|exact Hw1].
    rewrite Hl at 1. rewrite Hr. reflexivity.
  - intros (w & r & -> & Hw). unfold trim.
    rewrite trimStart_ws_app by exact Hw.
    rewrite trimStart_keep by reflexivity.
    destruct (trimEnd_head HYPHEN r eq_refl) as [r' ->].
    reflexivity.
Qed.

Lemma claimText_bullet (r : jsstring) :
  claimText ([HYPHEN; SP] ++ r) = trim r.
Proof. reflexivity. Qed.

End Claims.

(** C9, amended. The claims document is its lines joined by line ends;
    a line is taken as a claim exactly when its text, leading white space
    apart, starts with a hyphen, and every other line is ignored; the claims
    come in the order of the lines, and a taken line that starts with a
    hyphen and a space gives its text without this prefix, trimmed, as
    [- first ] gives [first]. Without a claims document there is no
    claim. *)
Theorem onOpen_claims_lines (text : jsstring) :
  let lines := split text [NL] in
  text = join lines [NL]
  /\ onOpen_claims (Some text) = map claimText (filter isClaimLine lines)
  /\ (forall l, isClaimLine l = true <->
                exists w r, l = w ++ HYPHEN :: r /\ forallb is_ws w = true)
  /\ (forall r, claimText ([HYPHEN; SP] ++ r) = trim r)
  /\ claimText (str "- first ") = str "first"
  /\ onOpen_claims None = [].
Proof.
  intros lines. split; [|split; [|split; [|split; [|split]]]].
  - symmetry. apply join_split. discriminate.
  - reflexivity.
  - apply isClaimLine_iff.
  - apply claimText_bullet.
  - reflexivity.
  - reflexivity.
Qed.

(** C9 as stated fails: the line [-x] does not start with a hyphen and a
    space, and it is taken as the claim [-x]. *)
Lemma onOpen_claims_takes_bare_hyphen :
  startsWith (str "-x") [HYPHEN; SP] = false
  /\ onOpen_claims (Some (str "-x")) = [str "-x"]
  /\ claims_spec (str "-x") = []
  /\ onOpen_claims (Some (str "-x")) <> claims_spec (str "-x").
Proof. repeat split. discriminate. Qed.

(** ** The rewriters, line by line *)

Section Rewriters.

Variable id : jsstring.

Lemma appendLine_other (t l : jsstring) :
  includes l (rowKey id) = false -> appendLine id t l = l.
Proof. unfold appendLine. now intros ->. Qed.

Lemma removeLine_other (i : Z) (l : jsstring) :
  includes l (rowKey id) = false -> removeLine id i l = l.
Proof. unfold removeLine. now intros ->. Qed.

Lemma appendLine_short (t l : jsstring) :
  length (split l [PIPE]) < 4 -> appendLine id t l = l.
Proof.
  intros H. unfold appendLine.
  destruct (Nat.leb_spec 4 (length (split l [PIPE]))); [lia|].
  now destruct (includes l (rowKey id)).
Qed.

Lemma removeLine_short (i : Z) (l : jsstring) :
  length (split l [PIPE]) < 4 -> removeLine id i l = l.
Proof.
  intros H. unfold removeLine.
  destruct (Nat.leb_spec 4 (length (split l [PIPE]))); [lia|].
  now destruct (includes l (rowKey id)).
Qed.

(** A line of at least four fields that holds the key: the fourth field is
    rewritten, the others stay. *)
Lemma appendLine_row (t p0 p1 p2 cell : jsstring) (rest : list jsstring) :
  Forall no_pipe (p0 :: p1 :: p2 :: cell :: rest) ->
  includes (join (p0 :: p1 :: p2 :: cell :: rest) [PIPE]) (rowKey id) = true ->
  appendLine id t (join (p0 :: p1 :: p2 :: cell :: rest) [PIPE])
  = join (p0 :: p1 :: p2 :: appendCell t cell :: rest) [PIPE].
Proof.
  intros HF Hk. unfold appendLine. rewrite Hk.
  rewrite fields_of_join by (discriminate || exact HF). reflexivity.
Qed.

Lemma removeLine_row (i : Z) (p0 p1 p2 cell : jsstring) (rest : list jsstring) :
  Forall no_pipe (p0 :: p1 :: p2 :: cell :: rest) ->
  includes (join (p0 :: p1 :: p2 :: cell :: rest) [PIPE]) (rowKey id) = true ->
  removeLine id i (join (p0 :: p1 :: p2 :: cell :: rest) [PIPE])
  = join (p0 :: p1 :: p2 :: removeCell i cell :: rest) [PIPE].
Proof.
  intros HF Hk. unfold removeLine. rewrite Hk.
  rewrite fields_of_join by (discriminate || exact HF). reflexivity.
Qed.

(** Without a line that holds the key the file is written back as it was. *)
Lemma map_unchanged (f : jsstring -> jsstring) (lines : list jsstring) :
  (forall l, In l lines -> f l = l) -> map f lines = lines.
Proof.
  intros H. rewrite <- (map_id lines) at 2. apply map_ext_in. exact H.
Qed.

End Rewriters.

(** C10, amended. [appendRelevance] and [removeRelevanceItem], on a file
    that exists, write back as many lines as they read; a line that does not
    hold [| id |] is written back as it was, at its place; every line that
    holds [| id |] and has at least four fields, the first such line or not,
    has its fourth field rewritten by the edit and its other fields kept; a
    line with fewer than four fields is written back as it was. *)
Theorem rewriters_frame (id text : jsstring) (indexToRemove : Z)
    (content : jsstring) :
  let lines := split content [NL] in
  exists out1 out2,
    appendRelevance id text (Some content) = Some (join out1 [NL])
    /\ removeRelevanceItem id indexToRemove (Some content)
       = Some (join out2 [NL])
    /\ length out1 = length lines /\ length out2 = length lines
    /\ forall i l, nth_error lines i = Some l ->
         (includes l (rowKey id) = false \/ length (split l [PIPE]) < 4 ->
          nth_error out1 i = Some l /\ nth_error out2 i = Some l)
         /\ (forall p0 p1 p2 cell rest,
               includes l (rowKey id) = true ->
               l = join (p0 :: p1 :: p2 :: cell :: rest) [PIPE] ->
               Forall no_pipe (p0 :: p1 :: p2 :: cell :: rest) ->
               nth_error out1 i
               = Some (join (p0 :: p1 :: p2
                             :: appendCell (sanitize text) cell :: rest) [PIPE])
               /\ nth_error out2 i
                  = Some (join (p0 :: p1 :: p2
                                :: removeCell indexToRemove cell :: rest) [PIPE])).
Proof.
  intros lines.
  exists (map (appendLine id (sanitize text)) lines),
         (map (removeLine id indexToRemove) lines).
  split; [reflexivity|]. split; [reflexivity|].
  split; [apply length_map|]. split; [apply length_map|].
  intros i l Hl. rewrite !nth_error_map, Hl. cbn [option_map]. split.
  - intros Hskip. split; f_equal.
    + destruct Hskip; [now apply appendLine_other|now apply appendLine_short].
    + destruct Hskip; [now apply removeLine_other|now apply removeLine_short].
  - intros p0 p1 p2 cell rest Hk -> HF. split; f_equal.
    + now apply appendLine_row.
    + now apply removeLine_row.
Qed.

(** C10 as stated fails: the first line holds [| 7 |] and has three fields;
    it is written back as it was, and only the second line is rewritten. *)
Lemma appendRelevance_skips_short_line :
  let store := Some (str "| 7 |" ++ [NL] ++ str "| 7 | c | a |") in
  includes (str "| 7 |") (rowKey (str "7")) = true
  /\ includes (str "| 7 | c | a |") (rowKey (str "7")) = true
  /\ appendRelevance (str "7") (str "x") store
     = Some (str "| 7 |" ++ [NL] ++ str "| 7 | c | a <br> x |")
  /\ removeRelevanceItem (str "7") 0 store
     = Some (str "| 7 |" ++ [NL] ++ str "| 7 | c |  |").
Proof. repeat split. Qed.

(** ** Stripping the marker *)

Lemma removelast_length (A : Type) (l : list A) :
  length (removelast l) = Nat.pred (length l).
Proof. rewrite removelast_firstn_len, length_firstn. lia. Qed.

Section Strip.

(** The marker, or any text that begins with a code unit that is not a
    space or a tab. *)
Variable lit : jsstring.
Variable x : char.
Variable lit' : jsstring.
Hypothesis lit_eq : lit = x :: lit'.
Hypothesis x_solid : is_hspace x = false.

Lemma match_tag_sound (s : jsstring) (n : nat) :
  match_tag lit s = Some n ->
  exists ws r, s = ws ++ lit ++ r /\ forallb is_hspace ws = true
               /\ n = length ws + length lit.
Proof.
  revert n; induction s as [|c s IH]; intros n H.
  - simpl in H. destruct (startsWith [] lit) eqn:E; [|discriminate].
    injection H as <-. destruct (startsWith_inv _ _ E) as [r Hr].
    exists [], r. repeat split; auto.
  - assert (Hhere : (if startsWith (c :: s) lit then Some (length lit) else None)
                    = Some n ->
                    exists ws r, c :: s = ws ++ lit ++ r
                                 /\ forallb is_hspace ws = true
                                 /\ n = length ws + length lit).
    { destruct (startsWith (c :: s) lit) eqn:E; [|discriminate].
      intros [= <-]. destruct (startsWith_inv _ _ E) as [r Hr].
      exists [], r. repeat split; auto. }
    cbn [match_tag] in H. destruct (is_hspace c) eqn:Ec; [|auto].
    destruct (match_tag lit s) as [m|]; [|auto].
    injection H as <-. destruct (IH m eq_refl) as (ws & r & -> & Hws & ->).
    exists (c :: ws), r. simpl. rewrite Ec, Hws. repeat split; auto.
Qed.

Lemma match_tag_here (r : jsstring) :
  match_tag lit (lit ++ r) = Some (length lit).
Proof.
  pose proof (startsWith_app lit r) as E. rewrite lit_eq in *.
  cbn [match_tag app]. cbn [app] in E. rewrite E. now rewrite x_solid.
Qed.

Lemma match_tag_complete (ws r : jsstring) :
  forallb is_hspace ws = true ->
  match_tag lit (ws ++ lit ++ r) = Some (length ws + length lit).
Proof.
  induction ws as [|c ws IH]; intros H.
  - apply match_tag_here.
  - simpl in H. apply andb_true_iff in H as [Hc Hws].
    cbn [match_tag app]. rewrite Hc, (IH Hws). reflexivity.
Qed.

Lemma replaceTag_skip (p s : jsstring) :
  replaceTag lit (length p) (p ++ s) = replaceTag lit 0 s.
Proof. induction p as [|c p IH]; [reflexivity|exact IH]. Qed.

(** A match is left out and the search resumes after it. *)
Lemma replaceTag_match (ws r : jsstring) :
  forallb is_hspace ws = true ->
  replaceTag lit 0 (ws ++ lit ++ r) = replaceTag lit 0 r.
Proof.
  intros Hws. pose proof (match_tag_complete ws r Hws) as Hm.
  rewrite app_assoc in Hm |- *.
  destruct (ws ++ lit) as [|c p] eqn:E.
  - destruct ws; rewrite lit_eq in E; discriminate.
  - assert (Hl : length ws + length lit = S (length p)).
    { rewrite <- length_app, E. reflexivity. }
    rewrite Hl in Hm. cbn [replaceTag app]. cbn [app] in Hm. rewrite Hm.
    apply replaceTag_skip.
Qed.

Lemma replaceTag_other (c : char) (s : jsstring) :
  match_tag lit (c :: s) = None ->
  replaceTag lit 0 (c :: s) = c :: replaceTag lit 0 s.
Proof. intros H. cbn [replaceTag]. now rewrite H. Qed.

(** Where the pattern matches, the marker occurs. *)
Lemma match_tag_includes (s : jsstring) (n : nat) :
  match_tag lit s = Some n -> includes s lit = true.
Proof.
  intros H. destruct (match_tag_sound s n H) as (ws & r & -> & _).
  apply includes_app.
Qed.

Lemma replaceTag_absent (s : jsstring) :
  includes s lit = false -> replaceTag lit 0 s = s.
Proof.
  induction s as [|c s IH]; intros H; [reflexivity|].
  rewrite replaceTag_other.
  - f_equal. apply IH. now apply includes_false_cons in H.
  - destruct (match_tag lit (c :: s)) as [n|] eqn:E; [|reflexivity].
    apply match_tag_includes in E. congruence.
Qed.

(** An occurrence that starts before the end of [u] ends inside [u]
    followed by the marker without its last code unit. *)
Lemma early_occurrence (u b w r : jsstring) :
  u ++ lit ++ b = w ++ lit ++ r -> length w < length u ->
  includes (u ++ removelast lit) lit = true.
Proof.
  intros E Hl.
  assert (Hu : exists u', u = w ++ u' /\ u' <> []).
  { exists (skipn (length w) u). split.
    - rewrite <- (firstn_skipn (length w) u) at 1. f_equal.
      apply (f_equal (firstn (length w))) in E.
      rewrite !firstn_app in E.
      replace (length w - length u) with 0 in E by lia.
      rewrite Nat.sub_diag, firstn_all in E. simpl in E.
      rewrite !app_nil_r in E. exact E.
    - intros Hn. apply (f_equal (@length char)) in Hn.
      rewrite length_skipn in Hn. simpl in Hn. lia. }
  destruct Hu as (u' & -> & Hu').
  rewrite <- !app_assoc in E. apply app_inv_head in E.
  rewrite <- app_assoc. 
  replace (w ++ u' ++ removelast lit) with (w ++ lit ++ skipn (length lit) (u' ++ removelast lit)).
  - apply includes_app.
  - f_equal.
    rewrite <- (firstn_skipn (length lit) (u' ++ removelast lit)) at 2.
    f_equal.
    assert (Hlen : length lit <= length (u' ++ removelast lit)).
    { rewrite length_app. destruct u'; [contradiction|].
      rewrite removelast_length. rewrite lit_eq. simpl. lia. }
    assert (Hs : startsWith ((u' ++ removelast lit) ++ [last lit x] ++ b) lit = true).
    { rewrite <- app_assoc, (app_assoc (removelast lit)).
      rewrite <- app_removelast_last by (rewrite lit_eq; discriminate).
      rewrite E. apply startsWith_app. }
    rewrite startsWith_app_long in Hs by exact Hlen.
    destruct (startsWith_inv _ _ Hs) as [t Ht]. rewrite Ht.
    rewrite firstn_app, Nat.sub_diag, firstn_all. simpl. now rewrite app_nil_r.
Qed.

(** Before the first marker of the line, with the spaces and tabs in front
    of it held back, the pattern does not match. *)
Lemma match_tag_before (a2 ws b : jsstring) :
  a2 <> [] -> is_hspace (last a2 0%N) = false ->
  forallb is_hspace ws = true ->
  includes (a2 ++ ws ++ removelast lit) lit = false ->
  match_tag lit (a2 ++ ws ++ lit ++ b) = None.
Proof.
  intros Hne Hlast Hws Hfirst.
  destruct (match_tag lit (a2 ++ ws ++ lit ++ b)) as [n|] eqn:E; [|reflexivity].
  exfalso. destruct (match_tag_sound _ n E) as (w & r & Hs & Hw & _).
  destruct (Nat.lt_ge_cases (length w) (length (a2 ++ ws))) as [Hl|Hl].
  - rewrite app_assoc in Hs.
    pose proof (early_occurrence (a2 ++ ws) b w r Hs Hl) as Hocc.
    rewrite <- app_assoc in Hocc. congruence.
  - assert (Hpre : a2 = firstn (length a2) w).
    { apply (f_equal (firstn (length a2))) in Hs.
      rewrite !firstn_app in Hs. rewrite Nat.sub_diag, firstn_all in Hs.
      rewrite length_app in Hl.
      replace (length a2 - length w) with 0 in Hs by lia.
      simpl in Hs. now rewrite !app_nil_r in Hs. }
    assert (Hin : In (last a2 0%N) w).
    { rewrite <- (firstn_skipn (length a2) w), <- Hpre.
      apply in_or_app; left. destruct a2 as [|c a2]; [contradiction|].
      apply (@exists_last _ (c :: a2)) in Hne as (l' & y & Hy).
      rewrite Hy, last_last. apply in_or_app; right; now left. }
    rewrite forallb_forall in Hw. rewrite (Hw _ Hin) in Hlast. discriminate.
Qed.

(** The text before the first marker of the line stays, but for the spaces
    and tabs that touch the marker. *)
Lemma replaceTag_first (a ws b : jsstring) :
  is_hspace (last a 0%N) = false ->
  forallb is_hspace ws = true ->
  includes (a ++ ws ++ removelast lit) lit = false ->
  replaceTag lit 0 (a ++ ws ++ lit ++ b) = a ++ replaceTag lit 0 b.
Proof.
  intros Hlast Hws. induction a as [|c a IH]; intros Hfirst.
  - simpl. now apply replaceTag_match.
  - change ((c :: a) ++ ws ++ lit ++ b) with (c :: (a ++ ws ++ lit ++ b)).
    rewrite replaceTag_other.
    + cbn [app]. f_equal. destruct a as [|c' a].
      * simpl. now apply replaceTag_match.
      * apply IH; [exact Hlast|].
        change ((c :: c' :: a) ++ ws ++ removelast lit)
          with ([c] ++ ((c' :: a) ++ ws ++ removelast lit)) in Hfirst.
        now apply includes_false_suffix in Hfirst.
    + apply (match_tag_before (c :: a) ws b); auto. discriminate.
Qed.

End Strip.

Section StripLoop.

Variable id : jsstring.

Lemma stripLoop_none (cur : Pos) (i : nat) (lines : list jsstring) :
  (forall l, In l lines -> includes l (marker id) = false) ->
  fst (stripLoop id cur i lines) = lines.
Proof.
  revert i; induction lines as [|l rest IH]; intros i H; [reflexivity|].
  cbn [stripLoop]. rewrite (H l) by now left.
  specialize (IH (S i) (fun x Hx => H x (or_intror Hx))).
  destruct (stripLoop id cur (S i) rest). simpl in *. now rewrite IH.
Qed.

(** The loop edits the first line that holds the marker and ends there. *)
Lemma stripLoop_first (cur : Pos) (i : nat) (pre : list jsstring)
    (l : jsstring) (post : list jsstring) :
  (forall x, In x pre -> includes x (marker id) = false) ->
  includes l (marker id) = true ->
  fst (stripLoop id cur i (pre ++ l :: post)) = pre ++ stripTag id l :: post.
Proof.
  revert i; induction pre as [|p pre IH]; intros i H Hl.
  - cbn [stripLoop app]. now rewrite Hl.
  - cbn [stripLoop app]. rewrite (H p) by now left.
    specialize (IH (S i) (fun x Hx => H x (or_intror Hx)) Hl).
    destruct (stripLoop id cur (S i) (pre ++ l :: post)). simpl in *.
    now rewrite IH.
Qed.

Lemma stripMarker_doc (e : Editor) :
  doc (stripMarker id e) = fst (stripLoop id (cursor e) 0 (doc e)).
Proof. unfold stripMarker. now destruct (stripLoop id (cursor e) 0 (doc e)). Qed.

End StripLoop.

(** C7. For an id made of digits, [deleteConnection] edits the first line
    of the editor, in the order of the lines, that holds [(fg:id)], and no
    line after it, whatever markers these hold; a document without the marker
    stays as it is. On the edited line the text before the first marker
    stays, the spaces and tabs that touch the marker go with it, and what
    follows the marker is edited in the same way, and stays as it is when it
    holds no marker: [  text (fg:123) more] becomes [  text more]. *)
Theorem deleteConnection_strips_first_line (id : jsstring) :
  forallb is_digit id = true ->
  (forall v e,
      (forall l, In l (doc e) -> includes l (marker id) = false) ->
      option_map doc (snd (deleteConnection id v (Some e))) = Some (doc e))
  /\ (forall v pre l post cur,
        (forall x, In x pre -> includes x (marker id) = false) ->
        includes l (marker id) = true ->
        option_map doc
          (snd (deleteConnection id v
                  (Some {| doc := pre ++ l :: post; cursor := cur |})))
        = Some (pre ++ stripTag id l :: post))
  /\ (forall a ws b,
        is_hspace (last a 0%N) = false ->
        forallb is_hspace ws = true ->
        includes (a ++ ws ++ removelast (marker id)) (marker id) = false ->
        stripTag id (a ++ ws ++ marker id ++ b) = a ++ stripTag id b)
  /\ (forall b, includes b (marker id) = false -> stripTag id b = b)
  /\ stripTag (str "123") (str "  text (fg:123) more") = str "  text more".
Proof.
  intros _. repeat split.
  - intros v e H. simpl. f_equal. rewrite stripMarker_doc.
    now apply stripLoop_none.
  - intros v pre l post cur H Hl. simpl. f_equal. rewrite stripMarker_doc.
    now apply stripLoop_first.
  - intros a ws b Hlast Hws Hfirst. unfold stripTag.
    now apply (replaceTag_first (marker id) 40%N (str "fg:" ++ id ++ [RPAREN])).
  - intros b H. unfold stripTag.
    now apply replaceTag_absent.
Qed.

Lemma deleteConnection_strips_first_line_witness :
  option_map doc
    (snd (deleteConnection (str "123") None
            (Some {| doc := [str "intro"; str "  text (fg:123) more";
                             str "later (fg:123)"];
                     cursor := {| line := 2; ch := 3 |} |})))
  = Some [str "intro"; stripTag (str "123") (str "  text (fg:123) more");
          str "later (fg:123)"]
  /\ stripTag (str "123") (str "  text" ++ str " " ++ marker (str "123")
                           ++ str " more")
     = str "  text" ++ str " more".
Proof.
  destruct (deleteConnection_strips_first_line (str "123") eq_refl)
    as (_ & Hline & Hstrip & Hrest & _).
  split.
  - apply (Hline None [str "intro"] (str "  text (fg:123) more")
             [str "later (fg:123)"]).
    + intros x [<-|[]]. reflexivity.
    + reflexivity.
  - etransitivity.
    + apply (Hstrip (str "  text") (str " ") (str " more")); reflexivity.
    + apply (f_equal (fun t => str "  text" ++ t)), Hrest. reflexivity.
Defined.

(** ** The marker scanner *)

Section Scanner.

Lemma digits_close_sound (s ds : jsstring) :
  digits_close s = Some ds ->
  ds <> [] /\ forallb is_digit ds = true /\ exists r, s = ds ++ RPAREN :: r.
Proof.
  revert ds; induction s as [|c s IH]; intros ds H; [discriminate|].
  cbn [digits_close] in H. destruct (is_digit c) eqn:Ec; [|discriminate].
  destruct (digits_close s) as [ds'|].
  - injection H as <-. destruct (IH ds' eq_refl) as (_ & Hd & r & ->).
    repeat split; [discriminate|simpl; now rewrite Ec|now exists r].
  - destruct s as [|d r]; [discriminate|].
    destruct (N.eqb_spec d RPAREN) as [->|]; [|discriminate].
    injection H as <-.
    repeat split; [discriminate|simpl; now rewrite Ec|now exists r].
Qed.

Lemma digits_close_complete (ds r : jsstring) :
  ds <> [] -> forallb is_digit ds = true ->
  digits_close (ds ++ RPAREN :: r) = Some ds.
Proof.
  induction ds as [|c ds IH]; [contradiction|]; intros _ H.
  simpl in H. apply andb_true_iff in H as [Hc Hds].
  cbn [digits_close app]. rewrite Hc. destruct ds as [|c' ds].
  - reflexivity.
  - rewrite IH; [reflexivity|discriminate|exact Hds].
Qed.

Lemma marker_length (ds : jsstring) : length (marker ds) = 5 + length ds.
Proof. unfold marker. simpl. rewrite length_app. simpl. lia. Qed.

Lemma match_marker_sound (s ds : jsstring) :
  match_marker s = Some ds ->
  ds <> [] /\ forallb is_digit ds = true /\ exists r, s = marker ds ++ r.
Proof.
  unfold match_marker. destruct (startsWith s (str "(fg:")) eqn:E; [|discriminate].
  destruct (startsWith_inv _ _ E) as [t ->]. intros H.
  change (skipn 4 (str "(fg:" ++ t)) with t in H.
  destruct (digits_close_sound _ _ H) as (Hne & Hd & r & ->).
  repeat split; auto. exists r. unfold marker.
  rewrite <- !app_assoc. reflexivity.
Qed.

Lemma match_marker_complete (ds r : jsstring) :
  ds <> [] -> forallb is_digit ds = true ->
  match_marker (marker ds ++ r) = Some ds.
Proof.
  intros Hne Hd. unfold match_marker, marker.
  rewrite <- !app_assoc. rewrite startsWith_app.
  change (skipn 4 (str "(fg:" ++ ds ++ [RPAREN] ++ r)) with (ds ++ RPAREN :: r).
  now apply digits_close_complete.
Qed.

Lemma In_before (A : Type) (m r a t : list A) (x : A) :
  m ++ r = a ++ x :: t -> length a < length m -> In x m.
Proof.
  revert m; induction a as [|y a IH]; intros m E Hl.
  - destruct m as [|z m]; [simpl in Hl; lia|].
    injection E as -> _. now left.
  - destruct m as [|z m]; [simpl in Hl; lia|].
    injection E as _ E. right. apply (IH m E). simpl in Hl. lia.
Qed.

(** Two markers do not overlap: after its parenthesis a marker holds none. *)
Lemma marker_apart (ds' r a ds b : jsstring) :
  forallb is_digit ds' = true -> a <> [] ->
  marker ds' ++ r = a ++ marker ds ++ b ->
  length (marker ds') <= length a.
Proof.
  intros Hd Hne E. destruct a as [|c a]; [contradiction|].
  destruct (Nat.le_gt_cases (length (marker ds')) (length (c :: a)))
    as [Hl|Hl]; [exact Hl|exfalso].
  unfold marker in E at 1. simpl in E. injection E as _ E.
  assert (Hin : In 40%N ([102; 103; 58] ++ ds' ++ [RPAREN])%N).
  { apply (In_before char _ r a (str "fg:" ++ ds ++ [RPAREN] ++ b)).
    - etransitivity; [exact E|]. now rewrite <- app_assoc.
    - rewrite marker_length in Hl. rewrite !length_app. simpl in *. lia. }
  apply in_app_or in Hin as [Hin|Hin].
  - simpl in Hin. intuition discriminate.
  - apply in_app_or in Hin as [Hin|Hin].
    + rewrite forallb_forall in Hd. specialize (Hd _ Hin). discriminate.
    + simpl in Hin. intuition discriminate.
Qed.

(** What the scan yields is a marker of the text, at its offsets. *)
Lemma execAll_sound (s : jsstring) (pos k : nat) (d : Deco) :
  In d (execAll pos k s) ->
  exists a ds b,
    s = a ++ marker ds ++ b /\ k <= length a
    /\ ds <> [] /\ forallb is_digit ds = true
    /\ d = {| from := pos + length a;
              to := pos + length a + length (marker ds);
              widget := ds |}.
Proof.
  revert pos k; induction s as [|c s IH]; intros pos k H; [contradiction|].
  assert (Hrec : forall k', In d (execAll (S pos) k' s) -> k <= S k' ->
            exists a ds b,
              c :: s = a ++ marker ds ++ b /\ k <= length a
              /\ ds <> [] /\ forallb is_digit ds = true
              /\ d = {| from := pos + length a;
                        to := pos + length a + length (marker ds);
                        widget := ds |}).
  { intros k' Hin Hk.
    destruct (IH _ _ Hin) as (a & ds & b & -> & Hka & Hne & Hd & ->).
    exists (c :: a), ds, b. simpl length.
    repeat split; auto; try lia.
    f_equal; lia. }
  cbn [execAll] in H. destruct k as [|k]; [|apply (Hrec k H); lia].
  destruct (match_marker (c :: s)) as [id|] eqn:E; [|apply (Hrec 0 H); lia].
  destruct H as [<-|H]; [|apply (Hrec _ H); lia].
  destruct (match_marker_sound _ _ E) as (Hne & Hd & r & Hr).
  exists [], id, r. rewrite marker_length. simpl length.
  repeat split; auto; try lia. f_equal; lia.
Qed.

(** Every marker of the text is yielded. *)
Lemma execAll_complete (a ds b : jsstring) (pos k : nat) :
  ds <> [] -> forallb is_digit ds = true -> k <= length a ->
  In {| from := pos + length a;
        to := pos + length a + length (marker ds);
        widget := ds |}
     (execAll pos k (a ++ marker ds ++ b)).
Proof.
  intros Hne Hd. revert pos k; induction a as [|c a IH]; intros pos k Hk.
  - simpl in Hk. assert (k = 0) as -> by lia.
    change ([] ++ marker ds ++ b) with (marker ds ++ b).
    pose proof (match_marker_complete ds b Hne Hd) as Hm.
    destruct (marker ds ++ b) as [|c s] eqn:E; [discriminate|].
    cbn [execAll]. rewrite Hm. left. rewrite marker_length. simpl length.
    f_equal; lia.
  - cbn [execAll app]. simpl length.
    replace (pos + S (length a)) with (S pos + length a) by lia.
    destruct k as [|k]; [|apply IH; simpl in Hk; lia].
    destruct (match_marker (c :: a ++ marker ds ++ b)) as [id|] eqn:E;
      [|apply IH; lia].
    right. apply IH.
    destruct (match_marker_sound _ _ E) as (_ & Hd' & r & Hr).
    pose proof (marker_apart id r (c :: a) ds b Hd') as Hap.
    rewrite marker_length in Hap. simpl length in Hap.
    assert (5 + length id <= S (length a)); [|lia].
    apply Hap; [discriminate|]. now rewrite <- Hr.
Qed.

(** The matches come in the order of the text and do not overlap. *)
Lemma execAll_sorted (s : jsstring) (pos k : nat) :
  StronglySorted (fun d1 d2 => to d1 <= from d2) (execAll pos k s)
  /\ Forall (fun d => pos + k <= from d) (execAll pos k s).
Proof.
  revert pos k; induction s as [|c s IH]; intros pos k.
  - split; constructor.
  - cbn [execAll]. destruct k as [|k].
    + destruct (match_marker (c :: s)) as [id|].
      * destruct (IH (S pos) (4 + length id)) as [Hs Hf]. split.
        -- constructor; [exact Hs|]. simpl.
           eapply Forall_impl; [|exact Hf]. simpl. intros; lia.
        -- constructor; [simpl; lia|].
           eapply Forall_impl; [|exact Hf]. simpl. intros; lia.
      * destruct (IH (S pos) 0) as [Hs Hf]. split; [exact Hs|].
        eapply Forall_impl; [|exact Hf]. simpl. intros; lia.
    + destruct (IH (S pos) k) as [Hs Hf]. split; [exact Hs|].
      eapply Forall_impl; [|exact Hf]. simpl. intros; lia.
Qed.

End Scanner.

(** C8. Over a text buffer and its visible ranges, [buildDecorations]
    yields exactly the markers of each range: a decoration is yielded if and
    only if the range reads [a ++ (fg:ds) ++ b] with [ds] one or more digits,
    and then it starts at the offset of the marker in the document, ends at
    the offset after its parenthesis and carries [ds]; the matches of a range
    come from left to right and none starts before the match before it ends.
    The scan of [start (fg:123)(fg:456) end] yields the two touching markers,
    at 6 to 14 with [123] and at 14 to 22 with [456]. *)
Theorem buildDecorations_all_markers (text : jsstring)
    (visibleRanges : list (nat * nat)) :
  (forall d,
      In d (buildDecorations text visibleRanges) <->
      exists r a ds b,
        In r visibleRanges
        /\ sliceString text (fst r) (snd r) = a ++ marker ds ++ b
        /\ ds <> [] /\ forallb is_digit ds = true
        /\ d = {| from := fst r + length a;
                  to := fst r + length a + length (marker ds);
                  widget := ds |})
  /\ (forall r,
        In r visibleRanges ->
        StronglySorted (fun d1 d2 => to d1 <= from d2)
          (buildDecorations text [r]))
  /\ buildDecorations (str "start (fg:123)(fg:456) end") [(0, 26)]
     = [ {| from := 6; to := 14; widget := str "123" |};
         {| from := 14; to := 22; widget := str "456" |} ].
Proof.
  split; [|split].
  - intros d. unfold buildDecorations. rewrite in_flat_map. split.
    + intros (r & Hr & Hd).
      destruct (execAll_sound _ _ _ _ Hd) as (a & ds & b & E & _ & H1 & H2 & H3).
      exists r, a, ds, b. auto.
    + intros (r & a & ds & b & Hr & E & H1 & H2 & ->).
      exists r. split; [exact Hr|]. rewrite E.
      apply execAll_complete; auto. lia.
  - intros r _. unfold buildDecorations. simpl. rewrite app_nil_r.
    apply execAll_sorted.
  - reflexivity.
Qed.

(** ** Rows and their fields *)

Section Rows.

Lemma rowLine_rowOf (id c r : jsstring) :
  rowLine id c r = rowOf id c ([SP] ++ r ++ [SP]).
Proof.
  unfold rowLine, rowOf. repeat (rewrite <- ?app_assoc; simpl). reflexivity.
Qed.

Lemma rowOf_join (id c cell : jsstring) :
  rowOf id c cell
  = join [[]; [SP] ++ id ++ [SP]; [SP] ++ c ++ [SP]; cell; []] [PIPE].
Proof.
  unfold rowOf. simpl. repeat (rewrite <- ?app_assoc; simpl). reflexivity.
Qed.

Lemma no_pipe_pad (x : jsstring) : no_pipe x -> no_pipe ([SP] ++ x ++ [SP]).
Proof.
  unfold no_pipe. intros H Hin. simpl in Hin.
  destruct Hin as [Hin|Hin]; [discriminate|].
  apply in_app_or in Hin as [Hin|Hin]; [contradiction|].
  simpl in Hin. intuition discriminate.
Qed.

(** The fields of a row. *)
Lemma rowOf_fields (id c cell : jsstring) :
  no_pipe id -> no_pipe c -> no_pipe cell ->
  split (rowOf id c cell) [PIPE]
  = [[]; [SP] ++ id ++ [SP]; [SP] ++ c ++ [SP]; cell; []].
Proof.
  intros Hid Hc Hcell. rewrite rowOf_join. apply fields_of_join; [discriminate|].
  repeat constructor; auto using no_pipe_pad; intros [].
Qed.

Lemma rowOf_key (id c cell : jsstring) :
  includes (rowOf id c cell) (rowKey id) = true.
Proof.
  apply startsWith_includes. unfold rowOf, rowKey.
  replace ([PIPE; SP] ++ id ++ [SP; PIPE; SP] ++ c ++ [SP; PIPE] ++ cell ++ [PIPE])
    with (([PIPE; SP] ++ id ++ [SP; PIPE])
          ++ [SP] ++ c ++ [SP; PIPE] ++ cell ++ [PIPE]).
  - apply startsWith_app.
  - repeat (rewrite <- ?app_assoc; simpl). reflexivity.
Qed.

(** What [getRelevanceData] reads in a row. *)
Lemma decodeLine_rowOf (id c cell : jsstring) :
  no_pipe id -> no_pipe c -> no_pipe cell -> trim c = c ->
  decodeLine (rowOf id c cell)
  = Some {| claim := c;
            relevances :=
              match trim cell with
              | [] => []
              | _ :: _ => filter nonblank (split (trim cell) SEPARATOR)
              end |}.
Proof.
  intros Hid Hc Hcell Htc. unfold decodeLine.
  rewrite rowOf_fields by assumption. cbn [map length Nat.leb nth].
  rewrite (trim_pad [SP] c [SP]) by (assumption || reflexivity).
  destruct (trim cell); reflexivity.
Qed.

Lemma digits_no_char (c : char) (ds : jsstring) :
  is_digit c = false -> forallb is_digit ds = true -> ~ In c ds.
Proof.
  intros Hc Hd Hin. rewrite forallb_forall in Hd.
  specialize (Hd _ Hin). congruence.
Qed.

(** A text without digits does not hold the key of an id that has one. *)
Lemma no_digit_no_key (id l : jsstring) :
  id <> [] -> forallb is_digit id = true ->
  forallb (fun c => negb (is_digit c)) l = true ->
  includes l (rowKey id) = false.
Proof.
  intros Hne Hid Hl. destruct (includes l (rowKey id)) eqn:E; [|reflexivity].
  destruct id as [|d id]; [contradiction|]. simpl in Hid.
  apply andb_true_iff in Hid as [Hd _].
  assert (Hin : In d l).
  { apply (includes_In _ _ d E). unfold rowKey. simpl. right; right; now left. }
  rewrite forallb_forall in Hl. specialize (Hl _ Hin).
  rewrite Hd in Hl. discriminate.
Qed.

Lemma uint_digits_digits (u : Decimal.uint) :
  forallb is_digit (uint_digits u) = true.
Proof. induction u; simpl; auto. Qed.

Lemma toString_not_nil (n : N) : toString n <> [].
Proof.
  unfold toString. destruct n as [|p]; [discriminate|]. simpl.
  pose proof (Unsigned.to_uint_nonnil p) as H.
  destruct (Pos.to_uint p); [contradiction|..]; discriminate.
Qed.

Lemma forallb_skipn (A : Type) (f : A -> bool) (k : nat) (l : list A) :
  forallb f l = true -> forallb f (skipn k l) = true.
Proof.
  intros H. rewrite <- (firstn_skipn k l), forallb_app in H.
  now apply andb_true_iff in H.
Qed.

(** An id is one to six digits. *)
Lemma newId_digits (now : N) :
  newId now <> [] /\ forallb is_digit (newId now) = true
  /\ length (newId now) <= 6.
Proof.
  unfold newId, slice_last. pose proof (toString_not_nil now) as Hne.
  repeat split.
  - intros H. apply (f_equal (@length char)) in H.
    rewrite length_skipn in H.
    destruct (toString now); [contradiction|]. cbn [length] in H. lia.
  - apply forallb_skipn, uint_digits_digits.
  - rewrite length_skipn. lia.
Qed.

End Rows.

(** C2. When the relevance file does not exist, [createLink], at any
    time [now] and with the claim [Claim A] and the relevance [Reason 1],
    creates it as the header, the three lines of front matter, an empty
    line, the column header and the separator row, followed by one row, the
    row of the new id with the claim field [Claim A] and the one item
    [Reason 1]; [getRelevanceData] with the new id then answers this claim
    and this list of one item; the marker of the new id goes to the
    editor. *)
Theorem createLink_creates_store (now : N) :
  let id := newId now in
  let row := rowLine id (str "Claim A") (str "Reason 1") in
  let created := createLink now (str "Claim A") (str "Reason 1") None in
  fst created = Some (header ++ row ++ [NL])
  /\ split (header ++ row ++ [NL]) [NL] = headerLines ++ [row; []]
  /\ decodeLine row
     = Some {| claim := str "Claim A"; relevances := [str "Reason 1"] |}
  /\ getRelevanceData id (fst created)
     = Some {| claim := str "Claim A"; relevances := [str "Reason 1"] |}
  /\ snd created = [SP] ++ marker id ++ [SP].
Proof.
  intros id row created.
  destruct (newId_digits now) as (Hne & Hd & _). fold id in Hne, Hd.
  assert (Hpipe : no_pipe id) by (apply digits_no_char; auto).
  assert (Hnl : no_newline id) by (apply digits_no_char; auto).
  assert (Hrow : decodeLine row
     = Some {| claim := str "Claim A"; relevances := [str "Reason 1"] |}).
  { unfold row. rewrite rowLine_rowOf.
    rewrite decodeLine_rowOf; auto; try reflexivity;
      unfold no_pipe; simpl; intuition discriminate. }
  assert (Hlines : split (header ++ row ++ [NL]) [NL] = headerLines ++ [row; []]).
  { replace (header ++ row ++ [NL])
      with (join (headerLines ++ [row; []]) [NL]).
    - apply lines_of_join; [discriminate|].
      repeat constructor; try (unfold no_newline; simpl; intuition discriminate).
      unfold row, rowLine, no_newline. intros Hin.
      simpl in Hin. destruct Hin as [|[|Hin]]; try discriminate.
      apply in_app_or in Hin as [Hin|Hin]; [now apply Hnl|].
      simpl in Hin. intuition discriminate.
    - simpl. repeat (rewrite <- ?app_assoc; simpl). reflexivity. }
  repeat split; auto.
  change (scanLines (rowKey id) (split (header ++ row ++ [NL]) [NL])
          = Some {| claim := str "Claim A"; relevances := [str "Reason 1"] |}).
  rewrite Hlines.
  assert (Hh : forall l, In l headerLines -> includes l (rowKey id) = false).
  { intros l Hl. apply no_digit_no_key; auto.
    simpl in Hl. repeat (destruct Hl as [<-|Hl]; [reflexivity|]). contradiction. }
  unfold headerLines. cbn [app scanLines].
  rewrite !Hh by (simpl; tauto).
  unfold row at 1. rewrite rowLine_rowOf, rowOf_key.
  now rewrite Hrow.
Qed.

(** ** The separator inside a cell *)

Section Peel.

(** A separator that begins with a space followed by a code unit that is
    not white: white space in front of a text brings no occurrence that a
    single space would not bring. *)
Variable m : char.
Variable t : jsstring.
Hypothesis m_solid : is_ws m = false.

Lemma peel_left (pl s : jsstring) :
  forallb is_ws pl = true ->
  includes (pl ++ s) (SP :: m :: t) = true ->
  includes (SP :: s) (SP :: m :: t) = true.
Proof.
  induction pl as [|c pl IH]; intros Hpl H.
  - simpl app in H. cbn [includes]. rewrite H. apply orb_true_r.
  - simpl in Hpl. apply andb_true_iff in Hpl as [Hc Hpl].
    change ((c :: pl) ++ s) with (c :: (pl ++ s)) in H.
    cbn [includes] in H. apply orb_true_iff in H as [H|H]; [|auto].
    cbn [startsWith] in H. apply andb_true_iff in H as [Hsp H].
    apply N.eqb_eq in Hsp. subst c. destruct pl as [|c' pl].
    + simpl app in H. cbn [includes startsWith]. rewrite N.eqb_refl, H.
      reflexivity.
    + exfalso. simpl in H, Hpl. apply andb_true_iff in H as [H _].
      apply N.eqb_eq in H. subst c'.
      apply andb_true_iff in Hpl as [Hm _]. congruence.
Qed.

End Peel.

Section Separator.

Lemma includes_rev (s p : jsstring) :
  includes (rev s) (rev p) = includes s p.
Proof.
  destruct (includes s p) eqn:E.
  - destruct (includes_inv _ _ E) as (a & b & ->).
    rewrite !rev_app_distr, <- app_assoc. apply includes_app.
  - destruct (includes (rev s) (rev p)) eqn:E'; [|reflexivity].
    destruct (includes_inv _ _ E') as (a & b & Hs).
    apply (f_equal (@rev char)) in Hs.
    rewrite rev_involutive, !rev_app_distr, rev_involutive, <- app_assoc in Hs.
    rewrite Hs, includes_app in E. discriminate.
Qed.

(** White space around a safe item brings no separator. *)
Lemma cellSafe_pad (pl a pr : jsstring) :
  cellSafe a -> forallb is_ws pl = true -> forallb is_ws pr = true ->
  includes (pl ++ a ++ pr) SEPARATOR = false.
Proof.
  intros Ha Hl Hr. destruct (includes (pl ++ a ++ pr) SEPARATOR) eqn:E;
    [exfalso|reflexivity].
  apply (peel_left 60%N [98; 114; 62; 32]%N eq_refl pl (a ++ pr) Hl) in E.
  rewrite <- includes_rev in E.
  change (rev (SP :: 60 :: [98; 114; 62; 32]))%N
    with (SP :: 62 :: [114; 98; 60; 32])%N in E.
  change (SP :: a ++ pr) with ([SP] ++ a ++ pr) in E.
  rewrite !rev_app_distr, <- app_assoc in E.
  apply (peel_left 62%N [114; 98; 60; 32]%N eq_refl (rev pr) (rev a ++ rev [SP])) in E;
    [|now rewrite forallb_rev].
  change (SP :: rev a ++ rev [SP]) with (rev [SP] ++ rev a ++ rev [SP]) in E.
  rewrite <- !rev_app_distr in E.
  change (SP :: 62 :: [114; 98; 60; 32])%N with (rev SEPARATOR) in E.
  rewrite includes_rev in E. rewrite <- app_assoc in E.
  unfold cellSafe in Ha. congruence.
Qed.

(** A field that stops before the separator: the separator does not start
    inside it. *)
Lemma separator_not_inside (u2 b : jsstring) :
  u2 <> [] -> includes (u2 ++ [SP]) SEPARATOR = false ->
  startsWith (u2 ++ SEPARATOR ++ b) SEPARATOR = false.
Proof.
  intros Hne Hu.
  apply includes_false_startsWith in Hu.
  destruct (startsWith (u2 ++ SEPARATOR ++ b) SEPARATOR) eqn:E;
    [exfalso|reflexivity].
  destruct u2 as [|c1 [|c2 [|c3 [|c4 [|c5 [|c6 r]]]]]]; [contradiction|..];
    cbn in E, Hu;
    repeat match type of E with
           | context [N.eqb ?c ?k] =>
               is_var c; destruct (N.eqb c k); cbn in E, Hu
           end;
    congruence.
Qed.

Lemma split_separator_app (u b : jsstring) :
  includes (u ++ [SP]) SEPARATOR = false ->
  split (u ++ SEPARATOR ++ b) SEPARATOR = u :: split b SEPARATOR.
Proof.
  intros Hu. apply split_app_sep; [discriminate|].
  intros u1 u2 -> Hne. apply separator_not_inside; [exact Hne|].
  rewrite <- app_assoc in Hu. now apply includes_false_suffix in Hu.
Qed.

(** The fields of a cell are its items, with the padding of the cell. *)
Lemma split_cell_last (items : list jsstring) (pr : jsstring) :
  items <> [] -> Forall cellSafe items -> forallb is_ws pr = true ->
  split (join items SEPARATOR ++ pr) SEPARATOR = pad_last pr items.
Proof.
  intros Hne HF Hr. induction items as [|a rest IH]; [contradiction|].
  inversion HF as [|? ? Ha Hrest]; subst. destruct rest as [|b rest].
  - cbn [join pad_last]. apply split_none; [discriminate|].
    now apply (cellSafe_pad [] a pr).
  - rewrite join_cons by discriminate. rewrite <- !app_assoc.
    rewrite split_separator_app.
    + cbn [pad_last]. f_equal. apply IH; [discriminate|exact Hrest].
    + now apply (cellSafe_pad [] a [SP]).
Qed.

Lemma split_cell (items : list jsstring) (pl pr : jsstring) :
  items <> [] -> Forall cellSafe items ->
  forallb is_ws pl = true -> forallb is_ws pr = true ->
  split (pl ++ join items SEPARATOR ++ pr) SEPARATOR
  = pad_first pl (pad_last pr items).
Proof.
  intros Hne HF Hl Hr. destruct items as [|a rest]; [contradiction|].
  inversion HF as [|? ? Ha Hrest]; subst. destruct rest as [|b rest].
  - cbn [join pad_last pad_first].
    apply split_none; [discriminate|]. now apply cellSafe_pad.
  - rewrite join_cons by discriminate. cbn [pad_last pad_first].
    replace (pl ++ (a ++ SEPARATOR ++ join (b :: rest) SEPARATOR) ++ pr)
      with ((pl ++ a) ++ SEPARATOR ++ (join (b :: rest) SEPARATOR ++ pr))
      by (now rewrite <- !app_assoc).
    rewrite split_separator_app.
    + f_equal. apply split_cell_last; [discriminate|exact Hrest|exact Hr].
    + rewrite <- app_assoc. now apply cellSafe_pad.
Qed.

Lemma pad_last_cons (pr a : jsstring) (rest : list jsstring) :
  rest <> [] -> pad_last pr (a :: rest) = a :: pad_last pr rest.
Proof. destruct rest; [contradiction|reflexivity]. Qed.

Lemma pad_last_nil (items : list jsstring) : pad_last [] items = items.
Proof.
  induction items as [|a rest IH]; [reflexivity|].
  destruct rest as [|b rest].
  - simpl. now rewrite app_nil_r.
  - rewrite pad_last_cons by discriminate. now rewrite IH.
Qed.

Lemma cellSafe_endSafe (a : jsstring) : cellSafe a -> endSafe a.
Proof. unfold cellSafe, endSafe. apply includes_false_suffix. Qed.

(** The fields of the joined items are the items. *)
Lemma split_items (items : list jsstring) :
  items <> [] -> Forall endSafe items ->
  split (join items SEPARATOR) SEPARATOR = items.
Proof.
  intros Hne HF. induction items as [|a rest IH]; [contradiction|].
  inversion HF as [|? ? Ha Hrest]; subst. destruct rest as [|b rest].
  - cbn [join]. apply split_none; [discriminate|].
    now apply includes_false_prefix in Ha.
  - rewrite join_cons by discriminate. rewrite split_separator_app by exact Ha.
    f_equal. apply IH; [discriminate|exact Hrest].
Qed.

End Separator.

(** ** Cells and their items *)

Section Cells.

Lemma trim_ends_fixed (c : char) (r r' : jsstring) (c' : char) :
  is_ws c = false -> is_ws c' = false -> c :: r = r' ++ [c'] ->
  trim (c :: r) = c :: r.
Proof.
  intros Hc Hc' E. unfold trim. rewrite trimStart_keep by exact Hc.
  rewrite E. now apply trimEnd_keep.
Qed.

(** A text between two trimmed texts that are not empty is trimmed. *)
Lemma trim_outer (a mid z : jsstring) :
  trim a = a -> a <> [] -> trim z = z -> z <> [] ->
  trim (a ++ mid ++ z) = a ++ mid ++ z.
Proof.
  intros Ha Hane Hz Hzne.
  destruct (trim_fixed_ends a Ha) as [->|[(c & r & -> & Hc) _]];
    [contradiction|].
  destruct (trim_fixed_ends z Hz) as [->|[_ (r' & c' & -> & Hc')]];
    [contradiction|].
  apply (trim_ends_fixed c (r ++ mid ++ r' ++ [c']) ((c :: r) ++ mid ++ r') c');
    auto.
  simpl. now rewrite <- !app_assoc.
Qed.

Lemma goodItem_trimmed (i : jsstring) : goodItem i -> trim i = i.
Proof. intros (H & _ & _). now apply sanitized_trimmed. Qed.

Lemma goodItem_endSafe (items : list jsstring) :
  Forall goodItem items -> Forall endSafe items.
Proof. apply Forall_impl. now intros i (_ & _ & H). Qed.

Lemma safeItem_cellSafe (items : list jsstring) :
  Forall safeItem items -> Forall cellSafe items.
Proof. apply Forall_impl. now intros i (_ & _ & H). Qed.

Lemma safeItem_good (items : list jsstring) :
  Forall safeItem items -> Forall goodItem items.
Proof.
  apply Forall_impl. intros i (H1 & H2 & H3).
  repeat split; auto using cellSafe_endSafe.
Qed.

Lemma join_items_trimmed (items : list jsstring) :
  items <> [] -> Forall goodItem items ->
  trim (join items SEPARATOR) = join items SEPARATOR
  /\ join items SEPARATOR <> [].
Proof.
  induction items as [|a rest IH]; [contradiction|]; intros _ HF.
  inversion HF as [|? ? Ha Hrest]; subst.
  pose proof (goodItem_trimmed a Ha) as Hta. destruct Ha as (_ & Hane & _).
  destruct rest as [|b rest]; [now split|].
  destruct (IH ltac:(discriminate) Hrest) as [Ht Hn].
  rewrite join_cons by discriminate. split.
  - now apply trim_outer.
  - destruct a; [contradiction|discriminate].
Qed.

Lemma nonblank_pad_last (items : list jsstring) (pr : jsstring) :
  Forall goodItem items -> forallb is_ws pr = true ->
  Forall (fun f => nonblank f = true) (pad_last pr items).
Proof.
  intros HF Hr. induction items as [|a rest IH]; [constructor|].
  inversion HF as [|? ? Ha Hrest]; subst.
  pose proof (goodItem_trimmed a Ha) as Hta. destruct Ha as (_ & Hane & _).
  destruct rest as [|b rest].
  - constructor; [|constructor]. now apply (nonblank_pad [] a pr).
  - rewrite pad_last_cons by discriminate. constructor; [|now apply IH].
    rewrite <- (app_nil_r a). now apply (nonblank_pad [] a []).
Qed.

Lemma filter_all (A : Type) (f : A -> bool) (l : list A) :
  Forall (fun x => f x = true) l -> filter f l = l.
Proof.
  induction 1 as [|x l Hx _ IH]; simpl; [reflexivity|]. now rewrite Hx, IH.
Qed.

(** The fields of a cell are all kept by the filter. *)
Lemma filter_nonblank_pad (items : list jsstring) (pl pr : jsstring) :
  Forall goodItem items ->
  forallb is_ws pl = true -> forallb is_ws pr = true ->
  filter nonblank (pad_first pl (pad_last pr items))
  = pad_first pl (pad_last pr items).
Proof.
  intros HF Hl Hr. apply filter_all.
  pose proof (nonblank_pad_last items pr HF Hr) as Hnb.
  destruct items as [|a rest]; [constructor|].
  inversion HF as [|? ? Ha Hrest]; subst.
  pose proof (goodItem_trimmed a Ha) as Hta. destruct Ha as (_ & Hane & _).
  destruct rest as [|b rest].
  - cbn [pad_last pad_first]. constructor; [|constructor].
    now apply nonblank_pad.
  - rewrite pad_last_cons in * by discriminate. cbn [pad_first].
    inversion Hnb; subst. constructor; [|assumption].
    rewrite <- (app_nil_r a). now apply (nonblank_pad pl a []).
Qed.

(** What [getRelevanceData] reads in a cell: the items. *)
Lemma decode_cell (items : list jsstring) (pl pr : jsstring) :
  Forall goodItem items ->
  forallb is_ws pl = true -> forallb is_ws pr = true ->
  match trim (pl ++ join items SEPARATOR ++ pr) with
  | [] => []
  | _ :: _ =>
      filter nonblank (split (trim (pl ++ join items SEPARATOR ++ pr)) SEPARATOR)
  end = items.
Proof.
  intros HF Hl Hr. destruct items as [|a rest].
  - cbn [join app]. rewrite trim_ws; [reflexivity|].
    rewrite forallb_app, Hl, Hr. reflexivity.
  - destruct (join_items_trimmed (a :: rest) ltac:(discriminate) HF) as [Ht Hn].
    rewrite trim_pad by assumption.
    destruct (join (a :: rest) SEPARATOR) eqn:E; [contradiction|].
    rewrite <- E. rewrite split_items; [|discriminate|now apply goodItem_endSafe].
    pose proof (filter_nonblank_pad (a :: rest) [] [] HF eq_refl eq_refl) as Hf.
    rewrite pad_last_nil in Hf. destruct rest; exact Hf.
Qed.

Lemma join_no_char (c : char) (fields : list jsstring) (sep : jsstring) :
  ~ In c sep -> Forall (fun f => ~ In c f) fields -> ~ In c (join fields sep).
Proof.
  intros Hsep HF. induction fields as [|f rest IH]; [intros []|].
  inversion HF as [|? ? Hf Hrest]; subst. destruct rest as [|g rest]; [exact Hf|].
  rewrite join_cons by discriminate. intros Hin.
  apply in_app_or in Hin as [Hin|Hin]; [contradiction|].
  apply in_app_or in Hin as [Hin|Hin]; [contradiction|].
  now apply IH.
Qed.

Lemma ws_no_char (c : char) (w : jsstring) :
  is_ws c = false -> forallb is_ws w = true -> ~ In c w.
Proof.
  intros Hc Hw Hin. rewrite forallb_forall in Hw.
  specialize (Hw _ Hin). congruence.
Qed.

(** A cell holds a code unit only if its items do, or it is white or
    of the separator. *)
Lemma cell_no_char (c : char) (items : list jsstring) (pl pr : jsstring) :
  is_ws c = false -> ~ In c SEPARATOR ->
  Forall (fun f => ~ In c f) items ->
  forallb is_ws pl = true -> forallb is_ws pr = true ->
  ~ In c (pl ++ join items SEPARATOR ++ pr).
Proof.
  intros Hc Hs HF Hl Hr Hin.
  apply in_app_or in Hin as [Hin|Hin]; [now apply (ws_no_char c pl)|].
  apply in_app_or in Hin as [Hin|Hin]; [|now apply (ws_no_char c pr)].
  now apply (join_no_char c items SEPARATOR).
Qed.

Lemma goodItem_no_pipe (items : list jsstring) :
  Forall goodItem items -> Forall no_pipe items.
Proof. apply Forall_impl. intros i (H & _). now apply sanitized_no_pipe. Qed.

Lemma goodItem_no_newline (items : list jsstring) :
  Forall goodItem items -> Forall no_newline items.
Proof. apply Forall_impl. intros i (H & _). now apply sanitized_no_newline. Qed.

Lemma separator_plain : ~ In PIPE SEPARATOR /\ ~ In NL SEPARATOR.
Proof. split; simpl; intuition discriminate. Qed.

(** What [getRelevanceData] reads in a row: its claim and its items. *)
Lemma decodeLine_items (id c : jsstring) (items : list jsstring)
    (pl pr : jsstring) :
  no_pipe id -> sanitize c = c -> Forall goodItem items ->
  forallb is_ws pl = true -> forallb is_ws pr = true ->
  decodeLine (rowOf id c (pl ++ join items SEPARATOR ++ pr))
  = Some {| claim := c; relevances := items |}.
Proof.
  intros Hid Hc HF Hl Hr. rewrite decodeLine_rowOf.
  - now rewrite decode_cell.
  - exact Hid.
  - now apply sanitized_no_pipe.
  - apply cell_no_char; auto using goodItem_no_pipe.
    apply separator_plain.
  - now apply sanitized_trimmed.
Qed.

Lemma rowOf_no_newline (id c cell : jsstring) :
  no_newline id -> no_newline c -> no_newline cell ->
  no_newline (rowOf id c cell).
Proof.
  unfold no_newline, rowOf. intros Hid Hc Hcell Hin.
  repeat (apply in_app_or in Hin as [Hin|Hin];
          [try contradiction; simpl in Hin; intuition discriminate|]).
  simpl in Hin; intuition discriminate.
Qed.

Lemma row_no_newline (id c : jsstring) (items : list jsstring)
    (pl pr : jsstring) :
  no_newline id -> sanitize c = c -> Forall goodItem items ->
  forallb is_ws pl = true -> forallb is_ws pr = true ->
  no_newline pl -> no_newline pr ->
  no_newline (rowOf id c (pl ++ join items SEPARATOR ++ pr)).
Proof.
  intros Hid Hc HF Hl Hr Hnl Hnr. apply rowOf_no_newline; auto.
  - now apply sanitized_no_newline.
  - unfold no_newline. intros Hin.
    apply in_app_or in Hin as [Hin|Hin]; [contradiction|].
    apply in_app_or in Hin as [Hin|Hin]; [|contradiction].
    revert Hin. apply join_no_char; [apply separator_plain|].
    now apply goodItem_no_newline.
Qed.

End Cells.

(** C1, amended. For every id and claim that [sanitize] leaves as they
    are, and every sequence of items, none or more, that [sanitize] leaves as
    they are, that are not empty, and that neither hold the separator nor
    end with the separator less its last space: the row
    [| id | claim | item <br> item ... |] splits and trims into the fields
    of the same id, the same claim and the joined items; it is decoded to
    the same claim and the same items in the same order; and
    [getRelevanceData] finds it under the id. *)
Theorem row_round_trip (id c : jsstring) (items : list jsstring) :
  sanitize id = id -> sanitize c = c -> Forall goodItem items ->
  let row := rowLine id c (join items SEPARATOR) in
  map trim (split row [PIPE]) = [[]; id; c; join items SEPARATOR; []]
  /\ decodeLine row = Some {| claim := c; relevances := items |}
  /\ getRelevanceData id (Some row)
     = Some {| claim := c; relevances := items |}.
Proof.
  intros Hid Hc HF row. unfold row. rewrite rowLine_rowOf.
  pose proof (sanitized_no_pipe id Hid) as Hidp.
  assert (Hcell : no_pipe ([SP] ++ join items SEPARATOR ++ [SP])).
  { apply cell_no_char; auto using goodItem_no_pipe. apply separator_plain. }
  assert (Hdec : decodeLine (rowOf id c ([SP] ++ join items SEPARATOR ++ [SP]))
                 = Some {| claim := c; relevances := items |})
    by now apply decodeLine_items.
  split; [|split].
  - rewrite rowOf_fields; auto using sanitized_no_pipe. cbn [map].
    rewrite (trim_pad [SP] id [SP]) by auto using sanitized_trimmed.
    rewrite (trim_pad [SP] c [SP]) by auto using sanitized_trimmed.
    rewrite (trim_pad [SP] (join items SEPARATOR) [SP]);
      [reflexivity| |reflexivity|reflexivity].
    destruct items as [|a rest]; [reflexivity|].
    now apply join_items_trimmed.
  - exact Hdec.
  - unfold getRelevanceData. rewrite split_char_none.
    + cbn [scanLines]. now rewrite rowOf_key, Hdec.
    + apply row_no_newline; auto using sanitized_no_newline;
        unfold no_newline; simpl; intuition discriminate.
Qed.

Lemma row_round_trip_witness :
  getRelevanceData (str "123456")
    (Some (str "| 123456 | Claim A | Reason 1 <br> Reason 2 |"))
  = Some {| claim := str "Claim A";
            relevances := [str "Reason 1"; str "Reason 2"] |}.
Proof.
  apply (row_round_trip (str "123456") (str "Claim A")
           [str "Reason 1"; str "Reason 2"]).
  - reflexivity.
  - reflexivity.
  - repeat constructor; discriminate.
Defined.

(** C1 as stated fails: the item [a <br> b] is left as it is by
    [sanitize] and is not empty, and its row is decoded to two items. *)
Lemma row_round_trip_collision :
  let items := [str "a <br> b"] in
  let row := rowLine (str "1") (str "c") (join items SEPARATOR) in
  Forall (fun i => sanitize i = i /\ i <> []) items
  /\ decodeLine row
     = Some {| claim := str "c"; relevances := [str "a"; str "b"] |}
  /\ decodeLine row <> Some {| claim := str "c"; relevances := items |}.
Proof.
  repeat split; try discriminate. repeat constructor. discriminate.
Qed.

(** ** Lines stay lines *)

Section LinesStay.

Lemma In_join_incl (f : jsstring) (fields : list jsstring) (sep : jsstring) :
  In f fields -> incl f (join fields sep).
Proof.
  induction fields as [|g rest IH]; [intros []|].
  intros Hin c Hc. destruct rest as [|h rest].
  - destruct Hin as [->|[]]. exact Hc.
  - rewrite join_cons by discriminate. destruct Hin as [->|Hin].
    + apply in_or_app; now left.
    + apply in_or_app; right. apply in_or_app; right. now apply (IH Hin).
Qed.

(** A field of a text is made of code units of the text. *)
Lemma split_incl (s sep f : jsstring) :
  sep <> [] -> In f (split s sep) -> incl f s.
Proof.
  intros Hsep Hin. rewrite <- (join_split s sep Hsep).
  now apply In_join_incl.
Qed.

Lemma split_no_newline (s sep : jsstring) :
  sep <> [] -> no_newline s -> Forall no_newline (split s sep).
Proof.
  intros Hsep Hs. apply Forall_forall. intros f Hf Hin.
  apply Hs. now apply (split_incl s sep f Hsep Hf).
Qed.

Lemma splice1_0 (A : Type) (x : A) (l : list A) : splice1 0 (x :: l) = l.
Proof. reflexivity. Qed.

Lemma splice1_S (A : Type) (i : nat) (x : A) (l : list A) :
  splice1 (S i) (x :: l) = x :: splice1 i l.
Proof. reflexivity. Qed.

Lemma Forall_splice1 (A : Type) (P : A -> Prop) (i : nat) (l : list A) :
  Forall P l -> Forall P (splice1 i l).
Proof.
  intros H. revert i; induction H as [|x l Hx Hl IH]; intros i.
  - unfold splice1. now rewrite firstn_nil, skipn_nil.
  - destruct i; [exact Hl|]. rewrite splice1_S. constructor; auto.
Qed.

Lemma Forall_set_nth (A : Type) (P : A -> Prop) (i : nat) (v : A) (l : list A) :
  P v -> Forall P l -> Forall P (set_nth i v l).
Proof.
  intros Hv H. revert i; induction H as [|x l Hx Hl IH]; intros i;
    [destruct i; constructor|].
  destruct i; simpl; constructor; auto.
Qed.

Lemma Forall_filter (A : Type) (P : A -> Prop) (f : A -> bool) (l : list A) :
  Forall P l -> Forall P (filter f l).
Proof.
  intros H. apply Forall_forall. intros x Hx. apply filter_In in Hx as [Hx _].
  revert x Hx. now apply Forall_forall.
Qed.

Lemma nth_no_newline (i : nat) (parts : list jsstring) :
  Forall no_newline parts -> no_newline (nth i parts []).
Proof.
  intros H. destruct (nth_in_or_default i parts []) as [Hin | ->]; [|intros []].
  revert Hin. now apply Forall_forall.
Qed.

Lemma app_no_newline (a b : jsstring) :
  no_newline a -> no_newline b -> no_newline (a ++ b).
Proof. unfold no_newline. intros Ha Hb Hin. apply in_app_or in Hin. tauto. Qed.

Lemma join_no_newline (fields : list jsstring) (sep : jsstring) :
  no_newline sep -> Forall no_newline fields -> no_newline (join fields sep).
Proof. apply join_no_char. Qed.

Lemma space_no_newline : no_newline [SP].
Proof. unfold no_newline. simpl. intuition discriminate. Qed.

Lemma pipe_no_newline : no_newline [PIPE].
Proof. unfold no_newline. simpl. intuition discriminate. Qed.

Lemma trim_no_newline (s : jsstring) : no_newline s -> no_newline (trim s).
Proof. unfold no_newline. intros H Hin. now apply H, trim_In. Qed.

Lemma appendCell_no_newline (t cell : jsstring) :
  no_newline t -> no_newline cell -> no_newline (appendCell t cell).
Proof.
  intros Ht Hcell. unfold appendCell.
  repeat apply app_no_newline;
    auto using space_no_newline, trim_no_newline.
  destruct (0 <? length (trim cell));
    [apply separator_plain|apply space_no_newline].
Qed.

Lemma removeCell_no_newline (i : Z) (cell : jsstring) :
  no_newline cell -> no_newline (removeCell i cell).
Proof.
  intros Hcell. unfold removeCell.
  assert (HF : Forall no_newline (filter nonblank (split cell SEPARATOR))).
  { apply Forall_filter, split_no_newline; [discriminate|exact Hcell]. }
  repeat apply app_no_newline; auto using space_no_newline.
  apply join_no_newline; [apply separator_plain|].
  destruct (_ && _)%bool; [now apply Forall_splice1|exact HF].
Qed.

Lemma appendLine_no_newline (id t l : jsstring) :
  no_newline t -> no_newline l -> no_newline (appendLine id t l).
Proof.
  intros Ht Hl. unfold appendLine.
  destruct (includes l (rowKey id)); [|exact Hl].
  destruct (4 <=? length (split l [PIPE])); [|exact Hl].
  pose proof (split_no_newline l [PIPE] ltac:(discriminate) Hl) as HF.
  apply join_no_newline; [apply pipe_no_newline|].
  apply Forall_set_nth; [|exact HF].
  apply appendCell_no_newline; [exact Ht|now apply nth_no_newline].
Qed.

Lemma removeLine_no_newline (id : jsstring) (i : Z) (l : jsstring) :
  no_newline l -> no_newline (removeLine id i l).
Proof.
  intros Hl. unfold removeLine.
  destruct (includes l (rowKey id)); [|exact Hl].
  destruct (4 <=? length (split l [PIPE])); [|exact Hl].
  pose proof (split_no_newline l [PIPE] ltac:(discriminate) Hl) as HF.
  apply join_no_newline; [apply pipe_no_newline|].
  apply Forall_set_nth; [|exact HF].
  apply removeCell_no_newline. now apply nth_no_newline.
Qed.

Lemma spaces_ws (w : jsstring) : spaces w -> forallb is_ws w = true.
Proof.
  unfold spaces. intros H. apply forallb_forall. intros c Hc.
  rewrite forallb_forall in H. specialize (H c Hc).
  apply N.eqb_eq in H. now subst c.
Qed.

Lemma spaces_no_newline (w : jsstring) : spaces w -> no_newline w.
Proof.
  unfold spaces, no_newline. intros H Hin. rewrite forallb_forall in H.
  specialize (H _ Hin). discriminate.
Qed.

Lemma spaces_app (w1 w2 : jsstring) : spaces w1 -> spaces w2 -> spaces (w1 ++ w2).
Proof.
  unfold spaces. intros H1 H2. rewrite forallb_app. now apply andb_true_iff.
Qed.

(** The reader, on a file whose first line that holds the key is a row
    that decodes. *)
Lemma scanLines_first (key : jsstring) (pre : list jsstring) (row : jsstring)
    (post : list jsstring) (d : RelevanceData) :
  (forall x, In x pre -> includes x key = false) ->
  includes row key = true -> decodeLine row = Some d ->
  scanLines key (pre ++ row :: post) = Some d.
Proof.
  intros Hpre Hk Hd. induction pre as [|p pre IH].
  - cbn [app scanLines]. now rewrite Hk, Hd.
  - cbn [app scanLines]. rewrite (Hpre p) by now left.
    apply IH. intros x Hx. apply Hpre. now right.
Qed.

(** A rewriter of lines, on a file whose first line that holds the key is
    [row]: the file it writes and what the reader finds there. *)
Lemma rewrite_then_read (f : jsstring -> jsstring) (key : jsstring)
    (pre : list jsstring) (row : jsstring) (post : list jsstring)
    (d : RelevanceData) :
  (forall l, no_newline l -> no_newline (f l)) ->
  (forall l, includes l key = false -> f l = l) ->
  Forall no_newline pre -> no_newline row -> Forall no_newline post ->
  (forall x, In x pre -> includes x key = false) ->
  includes (f row) key = true -> decodeLine (f row) = Some d ->
  let content := join (pre ++ row :: post) [NL] in
  let content' := join (map f (split content [NL])) [NL] in
  content' = join (pre ++ f row :: map f post) [NL]
  /\ scanLines key (split content' [NL]) = Some d.
Proof.
  intros Hnl Hid Hpre Hrow Hpost Hkey Hk Hd content content'.
  assert (Hlines : split content [NL] = pre ++ row :: post).
  { apply lines_of_join; [now destruct pre|].
    apply Forall_app; split; [exact Hpre|now constructor]. }
  assert (Hmap : map f (pre ++ row :: post) = pre ++ f row :: map f post).
  { rewrite map_app. cbn [map]. f_equal. apply map_unchanged.
    intros l Hl. now apply Hid, Hkey. }
  assert (Hc' : content' = join (pre ++ f row :: map f post) [NL]).
  { unfold content'. now rewrite Hlines, Hmap. }
  split; [exact Hc'|]. rewrite Hc'. rewrite lines_of_join.
  - now apply scanLines_first.
  - now destruct pre.
  - apply Forall_app; split; [exact Hpre|]. constructor; [now apply Hnl|].
    apply Forall_forall. intros l Hl. apply in_map_iff in Hl as (l0 & <- & Hl0).
    apply Hnl. revert l0 Hl0. now apply Forall_forall.
Qed.

End LinesStay.

(** ** Appending an item *)

Section Append.

Lemma join_snoc (items : list jsstring) (t sep : jsstring) :
  items <> [] -> join (items ++ [t]) sep = join items sep ++ sep ++ t.
Proof.
  induction items as [|a rest IH]; [contradiction|]; intros _.
  destruct rest as [|b rest]; [reflexivity|].
  change ((a :: b :: rest) ++ [t]) with (a :: ((b :: rest) ++ [t])).
  rewrite (join_cons a ((b :: rest) ++ [t])) by (simpl; discriminate).
  rewrite IH by discriminate.
  rewrite (join_cons a (b :: rest)) by discriminate.
  now rewrite <- !app_assoc.
Qed.

(** The cell after [appendRelevance]: the items and the new one, one space
    after them, and one space before them, or two when there was no item. *)
Lemma appendCell_items (t : jsstring) (items : list jsstring) (pl pr : jsstring) :
  Forall goodItem items ->
  forallb is_ws pl = true -> forallb is_ws pr = true ->
  appendCell t (pl ++ join items SEPARATOR ++ pr)
  = match items with [] => [SP; SP] | _ :: _ => [SP] end
    ++ join (items ++ [t]) SEPARATOR ++ [SP].
Proof.
  intros HF Hl Hr. unfold appendCell. destruct items as [|a rest].
  - cbn [join app]. rewrite trim_ws; [reflexivity|].
    rewrite forallb_app, Hl, Hr. reflexivity.
  - destruct (join_items_trimmed (a :: rest) ltac:(discriminate) HF) as [Ht Hn].
    rewrite trim_pad by assumption.
    rewrite join_snoc by discriminate.
    destruct (join (a :: rest) SEPARATOR) eqn:E; [contradiction|].
    cbn [length Nat.ltb Nat.leb]. now rewrite <- !app_assoc.
Qed.

Lemma appendLine_rowOf (id c t cell : jsstring) :
  no_pipe id -> no_pipe c -> no_pipe cell ->
  appendLine id t (rowOf id c cell) = rowOf id c (appendCell t cell).
Proof.
  intros Hid Hc Hcell. rewrite !rowOf_join. apply appendLine_row.
  - repeat constructor; auto using no_pipe_pad; intros [].
  - rewrite <- rowOf_join. apply rowOf_key.
Qed.

(** Without a line that holds the key, the file is written back as it
    was. *)
Lemma appendRelevance_no_row (id text content : jsstring) :
  (forall l, In l (split content [NL]) -> includes l (rowKey id) = false) ->
  appendRelevance id text (Some content) = Some content.
Proof.
  intros H. unfold appendRelevance. rewrite map_unchanged.
  - now rewrite join_split.
  - intros l Hl. now apply appendLine_other, H.
Qed.

End Append.

(** C3, amended. Let the relevance file hold, as the first line with
    [| id |], the row of [id], a claim and items, none or more, all left as
    they are by [sanitize], the items not empty, with spaces around the
    items; let the sanitized text be not empty; and let neither an item nor
    the sanitized text hold the separator or end with the separator less
    its last space. Then [appendRelevance]
    rewrites the cell of this row to the items followed by the sanitized
    text, joined by the separator, the sanitized text alone when there was
    no item, and [getRelevanceData] then answers the claim and the old items
    with the new item at the end. When the file does not exist nothing is
    created, and when no line holds [| id |] the file is written back as it
    was. *)
Theorem appendRelevance_appends (id c text : jsstring) (items : list jsstring)
    (pl pr : jsstring) (pre post : list jsstring) :
  sanitize id = id -> sanitize c = c -> Forall goodItem items ->
  sanitize text <> [] -> endSafe (sanitize text) ->
  spaces pl -> spaces pr ->
  Forall no_newline pre -> Forall no_newline post ->
  (forall x, In x pre -> includes x (rowKey id) = false) ->
  let t := sanitize text in
  let content :=
    join (pre ++ rowOf id c (pl ++ join items SEPARATOR ++ pr) :: post) [NL] in
  let lead := match items with [] => [SP; SP] | _ :: _ => [SP] end in
  appendRelevance id text (Some content)
  = Some (join (pre
                ++ rowOf id c (lead ++ join (items ++ [t]) SEPARATOR ++ [SP])
                :: map (appendLine id t) post) [NL])
  /\ getRelevanceData id (appendRelevance id text (Some content))
     = Some {| claim := c; relevances := items ++ [t] |}
  /\ appendRelevance id text None = None
  /\ (forall other,
        (forall l, In l (split other [NL]) -> includes l (rowKey id) = false) ->
        appendRelevance id text (Some other) = Some other).
Proof.
  intros Hid Hc HF Htne Hts Hpl Hpr Hpre Hpost Hkey t content lead.
  pose proof (spaces_ws pl Hpl) as Hwl. pose proof (spaces_ws pr Hpr) as Hwr.
  pose proof (sanitized_no_pipe id Hid) as Hidp.
  pose proof (sanitized_no_newline id Hid) as Hidn.
  assert (Hgt : goodItem t).
  { repeat split; auto. apply sanitize_idem. }
  assert (HF' : Forall goodItem (items ++ [t])).
  { apply Forall_app; split; [exact HF|now constructor]. }
  assert (Hcell : no_pipe (pl ++ join items SEPARATOR ++ pr)).
  { apply cell_no_char; auto using goodItem_no_pipe. apply separator_plain. }
  assert (Hlead : forallb is_ws lead = true) by (unfold lead; now destruct items).
  assert (Hrow : appendLine id t (rowOf id c (pl ++ join items SEPARATOR ++ pr))
                 = rowOf id c (lead ++ join (items ++ [t]) SEPARATOR ++ [SP])).
  { rewrite appendLine_rowOf; auto using sanitized_no_pipe.
    now rewrite appendCell_items. }
  destruct (rewrite_then_read (appendLine id t) (rowKey id) pre
              (rowOf id c (pl ++ join items SEPARATOR ++ pr)) post
              {| claim := c; relevances := items ++ [t] |}) as [Hfile Hread].
  - intros l. apply appendLine_no_newline. now apply sanitized_no_newline, sanitize_idem.
  - intros l. apply appendLine_other.
  - exact Hpre.
  - apply row_no_newline; auto using spaces_no_newline.
  - exact Hpost.
  - exact Hkey.
  - rewrite Hrow. apply rowOf_key.
  - rewrite Hrow. now apply decodeLine_items.
  - split; [|split; [|split]].
    + unfold appendRelevance. f_equal.
      etransitivity; [exact Hfile|]. now rewrite Hrow.
    + exact Hread.
    + reflexivity.
    + intros other. apply appendRelevance_no_row.
Qed.

Lemma appendRelevance_appends_witness :
  getRelevanceData (str "123456")
    (appendRelevance (str "123456") (str " Reason 2|b ")
       (Some (str "| ID | Claim | Relevance |" ++ [NL]
              ++ str "| 123456 | Claim A | Reason 1 |" ++ [NL])))
  = Some {| claim := str "Claim A";
            relevances := [str "Reason 1"; str "Reason 2-b"] |}.
Proof.
  apply (appendRelevance_appends (str "123456") (str "Claim A")
           (str " Reason 2|b ") [str "Reason 1"] [SP] [SP]
           [str "| ID | Claim | Relevance |"] [[]]).
  - reflexivity.
  - reflexivity.
  - repeat constructor; discriminate.
  - discriminate.
  - reflexivity.
  - reflexivity.
  - reflexivity.
  - repeat constructor. unfold no_newline. simpl. intuition discriminate.
  - repeat constructor. intros [].
  - intros x [<-|[]]. reflexivity.
Defined.

(** C3 as stated fails: the sanitized text [x <br> y] is appended to the
    item [a], and the row then decodes to three items. *)
Lemma appendRelevance_collision :
  let store := Some (str "| 1 | c | a |") in
  let text := str "x <br> y" in
  getRelevanceData (str "1") store
  = Some {| claim := str "c"; relevances := [str "a"] |}
  /\ sanitize text = text
  /\ getRelevanceData (str "1") (appendRelevance (str "1") text store)
     = Some {| claim := str "c"; relevances := [str "a"; str "x"; str "y"] |}
  /\ getRelevanceData (str "1") (appendRelevance (str "1") text store)
     <> Some {| claim := str "c"; relevances := [str "a"] ++ [sanitize text] |}.
Proof. repeat split. discriminate. Qed.

(** ** Removing an item *)

Section Remove.

Lemma pad_last_length (pr : jsstring) (items : list jsstring) :
  length (pad_last pr items) = length items.
Proof.
  induction items as [|a rest IH]; [reflexivity|].
  destruct rest as [|b rest]; [reflexivity|].
  rewrite pad_last_cons by discriminate. simpl length in *. now rewrite IH.
Qed.

Lemma pad_first_length (pl : jsstring) (l : list jsstring) :
  length (pad_first pl l) = length l.
Proof. now destruct l. Qed.

Lemma join_pad_last (pr : jsstring) (items : list jsstring) (sep : jsstring) :
  items <> [] -> join (pad_last pr items) sep = join items sep ++ pr.
Proof.
  induction items as [|a rest IH]; [contradiction|]; intros _.
  destruct rest as [|b rest]; [reflexivity|].
  rewrite pad_last_cons by discriminate.
  rewrite (join_cons a (b :: rest)) by discriminate.
  rewrite join_cons.
  - rewrite IH by discriminate. now rewrite <- !app_assoc.
  - intros H. apply (f_equal (@length jsstring)) in H.
    rewrite pad_last_length in H. discriminate.
Qed.

Lemma join_pad_first (pl : jsstring) (l : list jsstring) (sep : jsstring) :
  l <> [] -> join (pad_first pl l) sep = pl ++ join l sep.
Proof.
  destruct l as [|a [|b rest]]; [contradiction| |]; intros _; [reflexivity|].
  cbn [pad_first]. rewrite !join_cons by discriminate.
  now rewrite <- app_assoc.
Qed.

Lemma pad_last_not_nil (pr : jsstring) (items : list jsstring) :
  items <> [] -> pad_last pr items <> [].
Proof.
  intros Hne H. apply (f_equal (@length jsstring)) in H.
  rewrite pad_last_length in H. destruct items; [contradiction|discriminate].
Qed.

Lemma join_pad (pl pr : jsstring) (items : list jsstring) (sep : jsstring) :
  items <> [] ->
  join (pad_first pl (pad_last pr items)) sep = pl ++ join items sep ++ pr.
Proof.
  intros Hne. rewrite join_pad_first by now apply pad_last_not_nil.
  now rewrite join_pad_last.
Qed.

Lemma spaces_nil : spaces [].
Proof. reflexivity. Qed.

(** Taking a field out leaves the padding at the ends, or none. *)
Lemma splice1_pad_last (pr : jsstring) (items : list jsstring) (k : nat) :
  spaces pr ->
  exists pr', spaces pr'
              /\ splice1 k (pad_last pr items) = pad_last pr' (splice1 k items).
Proof.
  intros Hpr. revert k; induction items as [|a rest IH]; intros k.
  - exists pr. split; [exact Hpr|]. unfold splice1.
    now rewrite !firstn_nil, !skipn_nil.
  - destruct rest as [|b rest].
    + destruct k as [|k].
      * exists pr. now split.
      * exists pr. split; [exact Hpr|]. cbn [pad_last].
        rewrite !splice1_S. unfold splice1.
        now rewrite !firstn_nil, !skipn_nil.
    + rewrite pad_last_cons by discriminate. destruct k as [|k].
      * exists pr. now split.
      * rewrite !splice1_S. destruct (IH k) as (pr' & Hpr' & E). rewrite E.
        destruct (splice1 k (b :: rest)) as [|x l] eqn:Es.
        -- exists []. split; [apply spaces_nil|]. cbn [pad_last].
           now rewrite app_nil_r.
        -- exists pr'. split; [exact Hpr'|].
           now rewrite (pad_last_cons pr' a) by discriminate.
Qed.

Lemma splice1_pad_first (pl : jsstring) (l : list jsstring) (k : nat) :
  spaces pl ->
  exists pl', spaces pl'
              /\ splice1 k (pad_first pl l) = pad_first pl' (splice1 k l).
Proof.
  intros Hpl. destruct l as [|a rest].
  - exists pl. split; [exact Hpl|]. unfold splice1. cbn [pad_first].
    now rewrite !firstn_nil, !skipn_nil.
  - destruct k as [|k].
    + exists []. split; [apply spaces_nil|]. cbn [pad_first].
      rewrite !splice1_0. now destruct rest.
    + exists pl. split; [exact Hpl|]. cbn [pad_first]. now rewrite !splice1_S.
Qed.

Lemma splice1_pad (pl pr : jsstring) (items : list jsstring) (k : nat) :
  spaces pl -> spaces pr ->
  exists pl' pr',
    spaces pl' /\ spaces pr'
    /\ splice1 k (pad_first pl (pad_last pr items))
       = pad_first pl' (pad_last pr' (splice1 k items)).
Proof.
  intros Hpl Hpr.
  destruct (splice1_pad_first pl (pad_last pr items) k Hpl) as (pl' & Hpl' & E1).
  destruct (splice1_pad_last pr items k Hpr) as (pr' & Hpr' & E2).
  exists pl', pr'. repeat split; auto. now rewrite E1, E2.
Qed.

(** What [removeRelevanceItem] reads in a cell. *)
Lemma relArray_items (items : list jsstring) (pl pr : jsstring) :
  Forall safeItem items ->
  forallb is_ws pl = true -> forallb is_ws pr = true ->
  filter nonblank (split (pl ++ join items SEPARATOR ++ pr) SEPARATOR)
  = pad_first pl (pad_last pr items).
Proof.
  intros HF Hl Hr. destruct items as [|a rest].
  - cbn [join app pad_last pad_first].
    rewrite split_none; [|discriminate|now apply (cellSafe_pad pl [] pr)].
    cbn [filter]. unfold nonblank. rewrite trim_ws; [reflexivity|].
    rewrite forallb_app, Hl, Hr. reflexivity.
  - rewrite split_cell; auto using safeItem_cellSafe; [|discriminate].
    apply filter_nonblank_pad; auto using safeItem_good.
Qed.

(** The cell after [removeRelevanceItem]: the items but the one at the
    index, when there is one there, between spaces. *)
Lemma removeCell_items (idx : Z) (items : list jsstring) (pl pr : jsstring) :
  Forall safeItem items -> spaces pl -> spaces pr ->
  exists pl' pr',
    spaces pl' /\ spaces pr'
    /\ removeCell idx (pl ++ join items SEPARATOR ++ pr)
       = pl' ++ join (itemsWithout idx items) SEPARATOR ++ pr'.
Proof.
  intros HF Hpl Hpr. unfold removeCell, itemsWithout.
  rewrite relArray_items by auto using spaces_ws.
  rewrite pad_first_length, pad_last_length.
  assert (Hpadded : forall (l : list jsstring) (ql qr : jsstring),
             spaces ql -> spaces qr ->
             exists pl' pr',
               spaces pl' /\ spaces pr'
               /\ [SP] ++ join (pad_first ql (pad_last qr l)) SEPARATOR ++ [SP]
                  = pl' ++ join l SEPARATOR ++ pr').
  { intros l ql qr Hql Hqr. destruct l as [|a rest].
    - exists [SP], [SP]. now repeat split.
    - exists ([SP] ++ ql), (qr ++ [SP]).
      split; [now apply spaces_app|]. split; [now apply spaces_app|].
      rewrite join_pad by discriminate. now rewrite <- !app_assoc. }
  destruct ((0 <=? idx)%Z && (idx <? Z.of_nat (length items))%Z).
  - destruct (splice1_pad pl pr items (Z.to_nat idx) Hpl Hpr)
      as (ql & qr & Hql & Hqr & ->).
    now apply Hpadded.
  - now apply Hpadded.
Qed.

Lemma removeLine_rowOf (id c : jsstring) (idx : Z) (cell : jsstring) :
  no_pipe id -> no_pipe c -> no_pipe cell ->
  removeLine id idx (rowOf id c cell) = rowOf id c (removeCell idx cell).
Proof.
  intros Hid Hc Hcell. rewrite !rowOf_join. apply removeLine_row.
  - repeat constructor; auto using no_pipe_pad; intros [].
  - rewrite <- rowOf_join. apply rowOf_key.
Qed.

Lemma itemsWithout_good (idx : Z) (items : list jsstring) :
  Forall goodItem items -> Forall goodItem (itemsWithout idx items).
Proof.
  intros HF. unfold itemsWithout.
  destruct (_ && _)%bool; [now apply Forall_splice1|exact HF].
Qed.

End Remove.

(** Where the cell is split as the reader splits it. Let the relevance
    file hold, as the first line with [| id |], the row of [id], a claim and
    items, none or more, all left as they are by [sanitize], the items not
    empty and none of them, written between two spaces, holding the
    separator, with spaces around the items. Then [removeRelevanceItem]
    rewrites the cell of this row to the items but the one at the index,
    when the index is at least [0] and less than the number of items, and to
    all the items otherwise, between spaces; [getRelevanceData] then answers
    the claim and these items: with an index in range the items before the
    index followed by the items after it, in their order, with an index out
    of range the items as they were. *)
Theorem removeRelevanceItem_removes (id c : jsstring) (items : list jsstring)
    (pl pr : jsstring) (idx : Z) (pre post : list jsstring) :
  sanitize id = id -> sanitize c = c -> Forall safeItem items ->
  spaces pl -> spaces pr ->
  Forall no_newline pre -> Forall no_newline post ->
  (forall x, In x pre -> includes x (rowKey id) = false) ->
  let content :=
    join (pre ++ rowOf id c (pl ++ join items SEPARATOR ++ pr) :: post) [NL] in
  (exists pl' pr',
      spaces pl' /\ spaces pr'
      /\ removeRelevanceItem id idx (Some content)
         = Some (join (pre
                       ++ rowOf id c (pl' ++ join (itemsWithout idx items)
                                                  SEPARATOR ++ pr')
                       :: map (removeLine id idx) post) [NL]))
  /\ getRelevanceData id (removeRelevanceItem id idx (Some content))
     = Some {| claim := c; relevances := itemsWithout idx items |}
  /\ ((0 <= idx < Z.of_nat (length items))%Z ->
      itemsWithout idx items
      = firstn (Z.to_nat idx) items ++ skipn (S (Z.to_nat idx)) items)
  /\ ((idx < 0 \/ Z.of_nat (length items) <= idx)%Z ->
      itemsWithout idx items = items).
Proof.
  intros Hid Hc HS Hpl Hpr Hpre Hpost Hkey content.
  pose proof (safeItem_good items HS) as HF.
  pose proof (sanitized_no_pipe id Hid) as Hidp.
  pose proof (sanitized_no_newline id Hid) as Hidn.
  assert (Hcell : no_pipe (pl ++ join items SEPARATOR ++ pr)).
  { apply cell_no_char; auto using goodItem_no_pipe, spaces_ws.
    apply separator_plain. }
  destruct (removeCell_items idx items pl pr HS Hpl Hpr)
    as (pl' & pr' & Hpl' & Hpr' & Hcell').
  assert (Hrow : removeLine id idx (rowOf id c (pl ++ join items SEPARATOR ++ pr))
                 = rowOf id c (pl' ++ join (itemsWithout idx items) SEPARATOR
                               ++ pr')).
  { rewrite removeLine_rowOf; auto using sanitized_no_pipe. now rewrite Hcell'. }
  destruct (rewrite_then_read (removeLine id idx) (rowKey id) pre
              (rowOf id c (pl ++ join items SEPARATOR ++ pr)) post
              {| claim := c; relevances := itemsWithout idx items |})
    as [Hfile Hread].
  - intros l. apply removeLine_no_newline.
  - intros l. apply removeLine_other.
  - exact Hpre.
  - apply row_no_newline; auto using spaces_no_newline, spaces_ws.
  - exact Hpost.
  - exact Hkey.
  - rewrite Hrow. apply rowOf_key.
  - rewrite Hrow.
    apply decodeLine_items; auto using itemsWithout_good, spaces_ws.
  - split; [|split; [|split]].
    + exists pl', pr'. repeat split; auto.
      unfold removeRelevanceItem. f_equal.
      etransitivity; [exact Hfile|]. now rewrite Hrow.
    + exact Hread.
    + intros [H0 H1]. unfold itemsWithout.
      apply Z.leb_le in H0. apply Z.ltb_lt in H1. now rewrite H0, H1.
    + intros H. unfold itemsWithout.
      destruct (Z.leb_spec 0 idx); [|reflexivity].
      destruct (Z.ltb_spec idx (Z.of_nat (length items))); [lia|reflexivity].
Qed.

Lemma removeRelevanceItem_removes_witness :
  getRelevanceData (str "123456")
    (removeRelevanceItem (str "123456") 0
       (Some (str "| ID | Claim | Relevance |" ++ [NL]
              ++ str "| 123456 | Claim A | a <br> b <br> c |" ++ [NL])))
  = Some {| claim := str "Claim A"; relevances := [str "b"; str "c"] |}
  /\ getRelevanceData (str "123456")
       (removeRelevanceItem (str "123456") 5
          (Some (str "| ID | Claim | Relevance |" ++ [NL]
                 ++ str "| 123456 | Claim A | a <br> b <br> c |" ++ [NL])))
     = Some {| claim := str "Claim A";
               relevances := [str "a"; str "b"; str "c"] |}.
Proof.
  assert (H : forall idx,
    getRelevanceData (str "123456")
      (removeRelevanceItem (str "123456") idx
         (Some (str "| ID | Claim | Relevance |" ++ [NL]
                ++ str "| 123456 | Claim A | a <br> b <br> c |" ++ [NL])))
    = Some {| claim := str "Claim A";
              relevances := itemsWithout idx [str "a"; str "b"; str "c"] |}).
  { intros idx.
    apply (removeRelevanceItem_removes (str "123456") (str "Claim A")
             [str "a"; str "b"; str "c"] [SP] [SP] idx
             [str "| ID | Claim | Relevance |"] [[]]).
    - reflexivity.
    - reflexivity.
    - repeat constructor; discriminate.
    - reflexivity.
    - reflexivity.
    - repeat constructor. unfold no_newline. simpl. intuition discriminate.
    - repeat constructor. intros [].
    - intros x [<-|[]]. reflexivity. }
  split; [exact (H 0%Z)|exact (H 5%Z)].
Defined.

(** C4. [removeRelevanceItem] splits the cell on the separator before
    any trimming, where [getRelevanceData] and [appendRelevance] trim the
    cell first; the space that pads the cell then counts as the first space
    of a separator. The row that [createLink] writes for the relevance [<br>]
    and [appendRelevance] extends with [b] reads as the two items [<br>] and
    [b]; removing the item at index [0] leaves no item, where the item [b]
    should stay. With the index [5], out of range, the row of the one item
    [<br>] loses its item, and the row of the item [a] keeps it but is
    written back with two more spaces. *)
Theorem removeRelevanceItem_loses_items :
  let store := Some (str "| 1 | c | <br> <br> b |") in
  appendRelevance (str "1") (str "b")
    (Some (rowLine (str "1") (sanitize (str "c")) (sanitize (str "<br>"))))
  = store
  /\ getRelevanceData (str "1") store
     = Some {| claim := str "c"; relevances := [str "<br>"; str "b"] |}
  /\ removeRelevanceItem (str "1") 0 store = Some (str "| 1 | c |  |")
  /\ getRelevanceData (str "1") (removeRelevanceItem (str "1") 0 store)
     = Some {| claim := str "c"; relevances := [] |}
  /\ getRelevanceData (str "1") (Some (str "| 1 | c | <br> |"))
     = Some {| claim := str "c"; relevances := [str "<br>"] |}
  /\ getRelevanceData (str "1")
       (removeRelevanceItem (str "1") 5 (Some (str "| 1 | c | <br> |")))
     = Some {| claim := str "c"; relevances := [] |}
  /\ removeRelevanceItem (str "1") 5 (Some (str "| 1 | c | a |"))
     = Some (str "| 1 | c |  a  |").
Proof. repeat split. Qed.

(** * Further properties of the code *)

(** ** What [sanitize] gives *)

Section Sanitizing.

Lemma trim_nil_iff (s : jsstring) : trim s = [] <-> forallb is_ws s = true.
Proof.
  split; [|apply trim_ws].
  intros H. destruct (trim_decomp s) as (w1 & w2 & Hs & Hw1 & Hw2).
  rewrite Hs, H. cbn [app]. now rewrite forallb_app, Hw1, Hw2.
Qed.

(** The two replacements turn white into white and solid into solid. *)
Lemma replaced_ws (t : jsstring) :
  forallb is_ws (replaceChar NL SP (replaceChar PIPE HYPHEN t))
  = forallb is_ws t.
Proof.
  induction t as [|c t IH]; [reflexivity|].
  cbn [replaceChar map forallb]. unfold replaceChar in IH. rewrite IH.
  f_equal. destruct (N.eqb_spec c PIPE) as [->|Hp]; [reflexivity|].
  destruct (N.eqb_spec c NL) as [->|Hn]; reflexivity.
Qed.

Lemma replaceChar_length (c d : char) (s : jsstring) :
  length (replaceChar c d s) = length s.
Proof. apply length_map. Qed.

Lemma solid_trimmed (s : jsstring) :
  forallb (fun c => negb (is_ws c)) s = true -> trim s = s.
Proof.
  intros H. destruct s as [|c r]; [reflexivity|].
  destruct (@exists_last _ (c :: r) ltac:(discriminate)) as (r' & c' & E).
  rewrite forallb_forall in H.
  apply (trim_ends_fixed c r r' c'); [| |exact E].
  - apply negb_true_iff, H. now left.
  - apply negb_true_iff, H. rewrite E. apply in_or_app. right; now left.
Qed.

Lemma digit_solid (c : char) : is_digit c = true -> is_ws c = false.
Proof.
  unfold is_digit. rewrite andb_true_iff, !N.leb_le. intros [H1 H2].
  destruct (is_ws c) eqn:E; [exfalso|reflexivity].
  unfold is_ws in E.
  rewrite !orb_true_iff, !andb_true_iff, !N.leb_le, !N.eqb_eq in E. lia.
Qed.

Lemma digits_sanitized (ds : jsstring) :
  forallb is_digit ds = true -> sanitize ds = ds.
Proof.
  intros H. unfold sanitize.
  rewrite (replaceChar_absent PIPE HYPHEN) by (apply digits_no_char; auto).
  rewrite (replaceChar_absent NL SP) by (apply digits_no_char; auto).
  apply solid_trimmed. apply forallb_forall. intros c Hc.
  rewrite forallb_forall in H. apply negb_true_iff, digit_solid. auto.
Qed.

End Sanitizing.

(** X1. Whatever the text, [sanitize] gives a text without column
    delimiter and without line end, with no white space at either end and
    no longer than the text; sanitizing again changes nothing; and a text
    that has none of the three is left as it is. *)
Theorem sanitize_gives_clean_text (t : jsstring) :
  no_pipe (sanitize t) /\ no_newline (sanitize t)
  /\ trim (sanitize t) = sanitize t
  /\ length (sanitize t) <= length t
  /\ sanitize (sanitize t) = sanitize t
  /\ (no_pipe t -> no_newline t -> trim t = t -> sanitize t = t).
Proof.
  split; [apply sanitize_no_pipe|]. split; [apply sanitize_no_newline|].
  split; [apply sanitize_trimmed|]. split; [|split; [apply sanitize_idem|]].
  - unfold sanitize. etransitivity; [apply trim_length|].
    now rewrite !replaceChar_length.
  - intros Hp Hn Ht. unfold sanitize.
    rewrite (replaceChar_absent PIPE HYPHEN) by exact Hp.
    rewrite (replaceChar_absent NL SP) by exact Hn. exact Ht.
Qed.

(** X2. [sanitize] gives the empty text exactly for the texts that [trim]
    empties, the texts of white space only: a text that passes the test
    [input.value.trim().length > 0] of the display is stored as an item that
    is not empty. *)
Theorem sanitize_empty_iff_blank (t : jsstring) :
  (sanitize t = [] <-> trim t = [])
  /\ (trim t = [] <-> forallb is_ws t = true)
  /\ ((0 <? length (trim t)) = true -> sanitize t <> []).
Proof.
  assert (H : sanitize t = [] <-> trim t = []).
  { unfold sanitize. rewrite !trim_nil_iff. now rewrite replaced_ws. }
  split; [exact H|]. split; [apply trim_nil_iff|].
  intros Hg Hs. apply H in Hs. rewrite Hs in Hg. discriminate.
Qed.

(** X3. At any time the new id is one to six decimal digits, and so a text
    that [sanitize] leaves as it is, without column delimiter and without
    line end. *)
Theorem newId_is_short_number (now : N) :
  1 <= length (newId now) <= 6
  /\ forallb is_digit (newId now) = true
  /\ sanitize (newId now) = newId now
  /\ no_pipe (newId now) /\ no_newline (newId now).
Proof.
  destruct (newId_digits now) as (Hne & Hd & Hl).
  split; [|split; [exact Hd|split; [now apply digits_sanitized|split]]].
  - split; [|exact Hl]. destruct (newId now); [contradiction|simpl; lia].
  - apply digits_no_char; auto.
  - apply digits_no_char; auto.
Qed.

(** X15. Every claim that the prompt offers has no white space at either
    end and no line end, and when it holds no column delimiter [sanitize]
    leaves it as it is: the row stores the claim as it was picked. *)
Theorem onOpen_claims_are_clean (file : option jsstring) (c : jsstring) :
  In c (onOpen_claims file) ->
  trim c = c /\ no_newline c /\ (no_pipe c -> sanitize c = c).
Proof.
  intros Hin. destruct file as [text|]; [|contradiction].
  unfold onOpen_claims in Hin. apply in_map_iff in Hin as (l & <- & Hl).
  apply filter_In in Hl as [Hl _].
  assert (Hnl : no_newline l).
  { pose proof (split_no_char NL text) as HF.
    rewrite Forall_forall in HF. now apply HF. }
  assert (Ht : trim (claimText l) = claimText l) by apply trim_idem.
  assert (Hn : no_newline (claimText l)).
  { unfold claimText. apply trim_no_newline.
    destruct (startsWith l [HYPHEN; SP]); [|exact Hnl].
    intros Hin. apply Hnl. rewrite <- (firstn_skipn 2 l).
    apply in_or_app. now right. }
  split; [exact Ht|]. split; [exact Hn|].
  intros Hp. unfold sanitize.
  rewrite (replaceChar_absent PIPE HYPHEN) by exact Hp.
  rewrite (replaceChar_absent NL SP) by exact Hn. exact Ht.
Qed.

Lemma onOpen_claims_are_clean_witness :
  sanitize (str "first") = str "first".
Proof.
  apply (onOpen_claims_are_clean
           (Some (str "# Claims" ++ [NL] ++ str "- first " ++ [NL]))
           (str "first")).
  - simpl. now left.
  - unfold no_pipe. simpl. intuition discriminate.
Defined.

(** ** The last line of the file *)

Section LastLine.

Lemma split_char_cons (c x : char) (s : jsstring) :
  split (x :: s) [c]
  = if (x =? c)%N then [] :: split s [c] else push_front x (split s [c]).
Proof.
  unfold split. cbn [split_from]. rewrite startsWith_char. reflexivity.
Qed.

Lemma split_not_nil (s : jsstring) (c : char) : split s [c] <> [].
Proof. apply split_from_not_nil. Qed.

(** One-character separators cut a text piece by piece. *)
Lemma split_char_concat (c : char) (a b : jsstring) :
  split (a ++ c :: b) [c] = split a [c] ++ split b [c].
Proof.
  induction a as [|x a IH].
  - cbn [app]. rewrite split_char_cons, N.eqb_refl. reflexivity.
  - cbn [app]. rewrite !split_char_cons, IH.
    destruct (x =? c)%N; [reflexivity|].
    pose proof (split_not_nil a c) as Hne.
    destruct (split a [c]); [contradiction|reflexivity].
Qed.

Lemma lastLineEmpty_end (x : jsstring) : lastLineEmpty (x ++ [NL]).
Proof.
  unfold lastLineEmpty. rewrite split_char_concat.
  change (split [] [NL]) with [@nil char]. apply last_last.
Qed.

Lemma lastLineEmpty_lines (content : jsstring) :
  lastLineEmpty content -> exists init, split content [NL] = init ++ [[]].
Proof.
  unfold lastLineEmpty. intros H.
  destruct (@exists_last _ (split content [NL]) (split_not_nil content NL))
    as (init & l & E).
  rewrite E in H |- *. rewrite last_last in H. subst l. now exists init.
Qed.

Lemma join_last_empty (L : list jsstring) : lastLineEmpty (join (L ++ [[]]) [NL]).
Proof.
  destruct L as [|a L]; [reflexivity|].
  rewrite join_snoc by discriminate. cbn [app].
  rewrite <- (app_nil_r [NL]) at 2. apply lastLineEmpty_end.
Qed.

(** A file whose last line is empty is empty or ends with a line end. *)
Lemma lastLineEmpty_cases (content : jsstring) :
  lastLineEmpty content ->
  content = [] \/ exists c0, content = c0 ++ [NL]
                             /\ split content [NL] = split c0 [NL] ++ [[]].
Proof.
  intros H. destruct (lastLineEmpty_lines content H) as (init & E).
  pose proof (join_split content [NL] ltac:(discriminate)) as J.
  rewrite E in J. destruct init as [|a init]; [now left|right].
  rewrite join_snoc in J by discriminate.
  exists (join (a :: init) [NL]). split; [now rewrite <- J|].
  rewrite <- J at 1. cbn [app]. apply split_char_concat.
Qed.

Lemma key_not_in_empty_line (id : jsstring) : includes [] (rowKey id) = false.
Proof. reflexivity. Qed.

(** A rewriter of lines that leaves the empty line as it is keeps the last
    line empty. *)
Lemma map_lines_last_empty (f : jsstring -> jsstring) (content : jsstring) :
  f [] = [] -> lastLineEmpty content ->
  lastLineEmpty (join (map f (split content [NL])) [NL]).
Proof.
  intros Hf H. destruct (lastLineEmpty_lines content H) as (init & ->).
  rewrite map_app. cbn [map]. rewrite Hf. apply join_last_empty.
Qed.

Lemma filter_lines_last_empty (p : jsstring -> bool) (content : jsstring) :
  p [] = true -> lastLineEmpty content ->
  lastLineEmpty (join (filter p (split content [NL])) [NL]).
Proof.
  intros Hp H. destruct (lastLineEmpty_lines content H) as (init & ->).
  rewrite filter_app. cbn [filter]. rewrite Hp. apply join_last_empty.
Qed.

End LastLine.

(** X5. [createLink] always leaves a relevance file whose last line is
    empty, that is, a file that ends with a line end; [appendRelevance],
    [removeRelevanceItem] and [deleteConnection] keep the last line empty
    when it is: the rows that the code writes never share a line. *)
Theorem store_last_line_stays_empty (id text : jsstring) (idx : Z) (now : N)
    (c r : jsstring) (v : vault) (view : option Editor) :
  storeOK (fst (createLink now c r v))
  /\ (storeOK v ->
      storeOK (appendRelevance id text v)
      /\ storeOK (removeRelevanceItem id idx v)
      /\ storeOK (fst (deleteConnection id v view))).
Proof.
  split.
  - destruct v as [content|]; cbn [createLink fst storeOK].
    + rewrite !app_assoc. apply lastLineEmpty_end.
    + rewrite !app_assoc. apply lastLineEmpty_end.
  - destruct v as [content|]; [|now repeat split].
    cbn [storeOK]. intros H. split; [|split].
    + cbn [appendRelevance storeOK]. now apply map_lines_last_empty.
    + cbn [removeRelevanceItem storeOK]. now apply map_lines_last_empty.
    + cbn [deleteConnection fst deleteRows storeOK].
      now apply filter_lines_last_empty.
Qed.

(** ** Creating a row *)

Section Creating.

Lemma scanLines_app (key : jsstring) (a b : list jsstring) :
  scanLines key (a ++ b)
  = match scanLines key a with
    | Some d => Some d
    | None => scanLines key b
    end.
Proof.
  induction a as [|l a IH]; [reflexivity|]. cbn [app scanLines].
  destruct (includes l key); [|exact IH].
  destruct (decodeLine l); [reflexivity|exact IH].
Qed.

Lemma scanLines_none (key : jsstring) (lines : list jsstring) :
  (forall l, In l lines -> includes l key = false) ->
  scanLines key lines = None.
Proof.
  induction lines as [|l rest IH]; intros H; [reflexivity|].
  cbn [scanLines]. rewrite (H l) by now left.
  apply IH. intros x Hx. apply H. now right.
Qed.

Lemma nonblank_trimmed (x : jsstring) :
  trim x = x -> x <> [] -> nonblank x = true.
Proof.
  intros Ht Hne. unfold nonblank. rewrite Ht.
  destruct x; [contradiction|reflexivity].
Qed.

(** What the reader finds in the row that [createLink] writes. *)
Lemma decodeLine_new_row (id c r : jsstring) :
  no_pipe id -> includes (sanitize r) SEPARATOR = false ->
  decodeLine (rowLine id (sanitize c) (sanitize r))
  = Some {| claim := sanitize c; relevances := firstItems (sanitize r) |}.
Proof.
  intros Hid Hr. rewrite rowLine_rowOf, decodeLine_rowOf.
  - rewrite (trim_pad [SP] (sanitize r) [SP])
      by (reflexivity || apply sanitize_trimmed).
    destruct (sanitize r) as [|x s] eqn:E; [reflexivity|].
    rewrite <- E in *. rewrite split_none by (discriminate || exact Hr).
    cbn [filter firstItems].
    rewrite nonblank_trimmed; [now rewrite E| |rewrite E; discriminate].
    apply sanitize_trimmed.
  - exact Hid.
  - apply sanitize_no_pipe.
  - apply no_pipe_pad, sanitize_no_pipe.
  - apply sanitize_trimmed.
Qed.

Lemma new_row_no_newline (id c r : jsstring) :
  no_newline id -> no_newline (rowLine id (sanitize c) (sanitize r)).
Proof.
  intros Hid. rewrite rowLine_rowOf. apply rowOf_no_newline.
  - exact Hid.
  - apply sanitize_no_newline.
  - repeat apply app_no_newline; auto using space_no_newline.
    apply sanitize_no_newline.
Qed.

Lemma rowLine_key (id c r : jsstring) :
  includes (rowLine id c r) (rowKey id) = true.
Proof. rewrite rowLine_rowOf. apply rowOf_key. Qed.

(** The lines of a file after a row is appended to it. *)
Lemma lines_after_append (content row : jsstring) :
  lastLineEmpty content -> no_newline row ->
  split (content ++ row ++ [NL]) [NL]
  = removelast (split content [NL]) ++ [row; []].
Proof.
  intros H Hrow.
  assert (Hr : split (row ++ [NL]) [NL] = [row; []]).
  { rewrite split_char_concat, split_char_none by exact Hrow. reflexivity. }
  destruct (lastLineEmpty_cases content H) as [-> | (c0 & -> & E)].
  - cbn [app]. rewrite Hr. reflexivity.
  - rewrite E, removelast_last. rewrite <- app_assoc. cbn [app].
    rewrite split_char_concat. f_equal.
    change (row ++ [NL]) with (row ++ NL :: []) in Hr.
    rewrite split_char_concat in Hr. rewrite split_char_concat. exact Hr.
Qed.

Lemma header_lines : split header [NL] = headerLines ++ [[]].
Proof. reflexivity. Qed.

Lemma header_last_line_empty : lastLineEmpty header.
Proof. reflexivity. Qed.

Lemma header_has_no_key (id l : jsstring) :
  id <> [] -> forallb is_digit id = true ->
  In l (split header [NL]) -> includes l (rowKey id) = false.
Proof.
  intros Hne Hd Hl. apply no_digit_no_key; auto.
  rewrite header_lines in Hl. simpl in Hl.
  repeat (destruct Hl as [<-|Hl]; [reflexivity|]). contradiction.
Qed.

(** Reading the id of a row appended to a file that has no line with its
    key. *)
Lemma read_appended_row (id row : jsstring) (content : jsstring)
    (d : RelevanceData) :
  lastLineEmpty content -> no_newline row ->
  (forall l, In l (split content [NL]) -> includes l (rowKey id) = false) ->
  includes row (rowKey id) = true -> decodeLine row = Some d ->
  getRelevanceData id (Some (content ++ row ++ [NL])) = Some d.
Proof.
  intros H Hrow Hold Hk Hd. unfold getRelevanceData.
  rewrite lines_after_append by assumption.
  rewrite scanLines_app, scanLines_none.
  - cbn [scanLines]. now rewrite Hk, Hd.
  - intros l Hl. apply Hold.
    destruct (lastLineEmpty_lines content H) as (init & E).
    rewrite E in Hl |- *. rewrite removelast_last in Hl.
    apply in_or_app. now left.
Qed.

End Creating.

(** X4. When the relevance file does not exist, [createLink], at any time
    and for any claim and relevance text, creates it as the header followed
    by one row and a line end; when the sanitized relevance does not hold
    the separator, [getRelevanceData] with the new id answers the sanitized
    claim and the sanitized relevance as the one item, or no item when the
    relevance is blank. *)
Theorem createLink_then_read (now : N) (c r : jsstring) :
  includes (sanitize r) SEPARATOR = false ->
  let id := newId now in
  let created := fst (createLink now c r None) in
  created = Some (header ++ rowLine id (sanitize c) (sanitize r) ++ [NL])
  /\ getRelevanceData id created
     = Some {| claim := sanitize c; relevances := firstItems (sanitize r) |}.
Proof.
  intros Hr id created. split; [reflexivity|].
  destruct (newId_digits now) as (Hne & Hd & _). fold id in Hne, Hd.
  apply read_appended_row.
  - apply header_last_line_empty.
  - apply new_row_no_newline, digits_no_char; auto.
  - intros l. now apply header_has_no_key.
  - apply rowLine_key.
  - apply decodeLine_new_row; [|exact Hr]. apply digits_no_char; auto.
Qed.

Lemma createLink_then_read_witness :
  getRelevanceData (str "123456")
    (fst (createLink 1730000123456 (str " a|b ") (str "why" ++ [NL] ++ str "so")
            None))
  = Some {| claim := str "a-b"; relevances := [str "why so"] |}.
Proof.
  apply (createLink_then_read 1730000123456 (str " a|b ")
           (str "why" ++ [NL] ++ str "so")).
  reflexivity.
Defined.

(** X6. On a relevance file whose last line is empty, [createLink] adds
    its row as a line of its own after the lines of the file. Every id that
    was read before reads the same row after, the new id included when the
    file already had a row for it; and when no line of the file holds the
    key of the new id and the sanitized relevance does not hold the
    separator, the new id reads the sanitized claim and relevance. *)
Theorem createLink_appends_row (now : N) (c r content : jsstring) :
  lastLineEmpty content ->
  let id := newId now in
  let row := rowLine id (sanitize c) (sanitize r) in
  let created := fst (createLink now c r (Some content)) in
  created = Some (content ++ row ++ [NL])
  /\ split (content ++ row ++ [NL]) [NL]
     = removelast (split content [NL]) ++ [row; []]
  /\ (forall id' d,
        getRelevanceData id' (Some content) = Some d ->
        getRelevanceData id' created = Some d)
  /\ ((forall l, In l (split content [NL]) -> includes l (rowKey id) = false) ->
      includes (sanitize r) SEPARATOR = false ->
      getRelevanceData id created
      = Some {| claim := sanitize c; relevances := firstItems (sanitize r) |}).
Proof.
  intros H id row created.
  destruct (newId_digits now) as (Hne & Hd & _). fold id in Hne, Hd.
  assert (Hrow : no_newline row)
    by (apply new_row_no_newline, digits_no_char; auto).
  split; [reflexivity|]. split; [now apply lines_after_append|]. split.
  - intros id' d Hold. unfold created. cbn [createLink fst getRelevanceData].
    fold id. fold row. rewrite lines_after_append by assumption.
    unfold getRelevanceData in Hold.
    destruct (lastLineEmpty_lines content H) as (init & E).
    rewrite E in Hold |- *. rewrite removelast_last.
    rewrite scanLines_app in Hold |- *.
    destruct (scanLines (rowKey id') init); [exact Hold|].
    cbn [scanLines] in Hold. rewrite key_not_in_empty_line in Hold.
    discriminate.
  - intros Hold Hr. apply read_appended_row; auto.
    + apply rowLine_key.
    + apply decodeLine_new_row; [|exact Hr]. apply digits_no_char; auto.
Qed.

Lemma createLink_appends_row_witness :
  getRelevanceData (str "222222")
    (fst (createLink 1730000222222 (str "d") (str "b")
            (Some (str "| 111111 | c | a |" ++ [NL]))))
  = Some {| claim := str "d"; relevances := [str "b"] |}
  /\ getRelevanceData (str "111111")
       (fst (createLink 1730000111111 (str "d") (str "b")
               (Some (str "| 111111 | c | a |" ++ [NL]))))
     = Some {| claim := str "c"; relevances := [str "a"] |}.
Proof.
  split.
  - apply (createLink_appends_row 1730000222222 (str "d") (str "b")
             (str "| 111111 | c | a |" ++ [NL])).
    + reflexivity.
    + intros l [<-|[<-|[]]]; reflexivity.
    + reflexivity.
  - apply (createLink_appends_row 1730000111111 (str "d") (str "b")
             (str "| 111111 | c | a |" ++ [NL])).
    + reflexivity.
    + reflexivity.
Defined.

(** ** After a connection is deleted *)

Section Deleted.

Variable id : jsstring.

(** The lines of the file that [deleteConnection] writes. *)
Lemma kept_lines (content : jsstring) (kept : list jsstring) :
  kept = filter (fun l => negb (includes l (rowKey id))) (split content [NL]) ->
  split (join kept [NL]) [NL] = match kept with [] => [[]] | _ :: _ => kept end.
Proof.
  intros E. destruct kept as [|l rest]; [reflexivity|].
  apply lines_of_join; [discriminate|].
  rewrite E. apply Forall_filter. apply split_no_char.
Qed.

Lemma filter_twice (A : Type) (p : A -> bool) (l : list A) :
  filter p (filter p l) = filter p l.
Proof.
  induction l as [|x l IH]; [reflexivity|]. cbn [filter].
  destruct (p x) eqn:E; [|exact IH]. cbn [filter]. now rewrite E, IH.
Qed.

(** A search that only stops at kept elements finds the same in the
    filtered list. *)
Lemma find_filter (A : Type) (g p : A -> bool) (l : list A) :
  (forall x, In x l -> g x = true -> p x = true) ->
  find g (filter p l) = find g l.
Proof.
  induction l as [|x l IH]; intros H; [reflexivity|]. cbn [filter find].
  assert (IH' : find g (filter p l) = find g l).
  { apply IH. intros y Hy. apply H. now right. }
  destruct (g x) eqn:Eg.
  - rewrite (H x) by (now left || exact Eg). cbn [find]. now rewrite Eg.
  - destruct (p x); [cbn [find]; now rewrite Eg|exact IH'].
Qed.

End Deleted.

(** X7. After [deleteConnection], whatever the relevance file held,
    [getRelevanceData] with the deleted id answers nothing, so that a click
    on a marker of this id left in a document brings the notice that the
    connection is not found; and deleting the id a second time leaves the
    file as the first time left it. *)
Theorem deleteConnection_then_read (id : jsstring) (v : vault)
    (view view' : option Editor) :
  let v' := fst (deleteConnection id v view) in
  getRelevanceData id v' = None
  /\ onclick id v' = Notice (str "Connection not found (ID: " ++ id ++ str ")")
  /\ fst (deleteConnection id v' view') = v'.
Proof.
  intros v'.
  assert (Hread : getRelevanceData id v' = None).
  { destruct v as [content|]; [|reflexivity].
    unfold v'. cbn [deleteConnection fst deleteRows getRelevanceData].
    rewrite (kept_lines id content _ eq_refl).
    apply scanLines_none. intros l Hl.
    destruct (filter _ (split content [NL])) as [|k rest] eqn:E.
    - destruct Hl as [<-|[]]. reflexivity.
    - rewrite <- E in Hl. apply filter_In in Hl as [_ Hl].
      now apply negb_true_iff in Hl. }
  split; [exact Hread|]. split.
  - unfold onclick. now rewrite Hread.
  - destruct v as [content|]; [|reflexivity].
    unfold v'. cbn [deleteConnection fst deleteRows]. f_equal.
    rewrite (kept_lines id content _ eq_refl).
    destruct (filter _ (split content [NL])) as [|k rest] eqn:E;
      [reflexivity|].
    rewrite <- E. now rewrite filter_twice.
Qed.

(** X8. [deleteConnection] leaves the other connections readable: when an
    id reads a row before, and no line that holds the key of this id with
    four fields also holds the key of the deleted id, it reads the same row
    after. *)
Theorem deleteConnection_keeps_other_rows (id id' content : jsstring)
    (view : option Editor) (d : RelevanceData) :
  getRelevanceData id' (Some content) = Some d ->
  (forall l, In l (split content [NL]) -> isRowOf (rowKey id') l = true ->
             includes l (rowKey id) = false) ->
  getRelevanceData id' (fst (deleteConnection id (Some content) view)) = Some d.
Proof.
  intros Hd Hother.
  cbn [deleteConnection fst deleteRows getRelevanceData] in Hd |- *.
  rewrite scanLines_find in Hd.
  destruct (find (isRowOf (rowKey id')) (split content [NL])) as [l|] eqn:E;
    [|discriminate].
  pose proof (find_some _ _ E) as [Hin Hrow].
  rewrite (kept_lines id content _ eq_refl).
  assert (Hf : find (isRowOf (rowKey id'))
                 (filter (fun l => negb (includes l (rowKey id)))
                    (split content [NL])) = Some l).
  { rewrite find_filter; [exact E|].
    intros x Hx Hg. apply negb_true_iff. now apply Hother. }
  destruct (filter _ (split content [NL])) as [|k rest] eqn:Ek;
    [discriminate|].
  rewrite scanLines_find, Hf. exact Hd.
Qed.

Lemma deleteConnection_keeps_other_rows_witness :
  getRelevanceData (str "222222")
    (fst (deleteConnection (str "111111")
            (Some (str "| 111111 | c | a |" ++ [NL]
                   ++ str "| 222222 | d | b |" ++ [NL]))
            None))
  = Some {| claim := str "d"; relevances := [str "b"] |}.
Proof.
  apply deleteConnection_keeps_other_rows.
  - reflexivity.
  - intros l [<-|[<-|[<-|[]]]]; intros H; (discriminate H || reflexivity).
Defined.

(** ** The edited line and the cursor *)

Section Shrinking.

Variable lit : jsstring.
Variable x : char.
Variable lit' : jsstring.
Hypothesis lit_eq : lit = x :: lit'.
Hypothesis x_solid : is_hspace x = false.

Lemma replaceTag_length (k : nat) (s : jsstring) :
  length (replaceTag lit k s) <= length s.
Proof.
  revert k; induction s as [|c s IH]; intros k; [reflexivity|].
  cbn [replaceTag length]. destruct k as [|k].
  - destruct (match_tag lit (c :: s)) as [[|n]|]; cbn [length];
      try (specialize (IH 0); lia).
    specialize (IH n); lia.
  - specialize (IH k); lia.
Qed.

(** A line that holds the marker comes out shorter. *)
Lemma replaceTag_shorter (s : jsstring) :
  includes s lit = true -> length (replaceTag lit 0 s) < length s.
Proof.
  induction s as [|c s IH]; intros H.
  - rewrite lit_eq in H. discriminate.
  - cbn [replaceTag length].
    destruct (match_tag lit (c :: s)) as [[|n]|] eqn:E.
    + exfalso. destruct (match_tag_sound lit _ _ E) as (ws & r & _ & _ & Hn).
      rewrite lit_eq in Hn. simpl in Hn. lia.
    + pose proof (replaceTag_length n s). lia.
    + cbn [length]. apply Nat.succ_lt_mono in IH; [exact IH|].
      cbn [includes] in H. apply orb_true_iff in H as [H|H]; [|exact H].
      exfalso. destruct (startsWith_inv _ _ H) as [r Hr].
      rewrite Hr, (match_tag_here lit x lit' lit_eq x_solid) in E.
      discriminate.
Qed.

End Shrinking.

Section Cursor.

Variable id : jsstring.

Lemma stripLoop_cursor (cur : Pos) (i : nat) (lines : list jsstring) :
  let R := stripLoop id cur i lines in
  length (fst R) = length lines
  /\ line (snd R) = line cur
  /\ ch (snd R) <= ch cur
  /\ (i <= line cur ->
      ch cur <= length (nth (line cur - i) lines []) ->
      ch (snd R) <= length (nth (line cur - i) (fst R) [])).
Proof.
  revert i; induction lines as [|l rest IH]; intros i.
  - cbn. repeat split; auto.
  - cbn [stripLoop]. destruct (includes l (marker id)).
    + cbn [fst snd length]. destruct (Nat.eqb_spec (line cur) i) as [E|E].
      * cbn [line ch]. repeat split; auto; try lia.
        intros _ _. rewrite E, Nat.sub_diag. cbn [nth]. lia.
      * repeat split; auto. intros Hi Hc.
        destruct (line cur - i) as [|k] eqn:Ek; [lia|]. exact Hc.
    + specialize (IH (S i)).
      destruct (stripLoop id cur (S i) rest) as [rest' c].
      cbn [fst snd length] in *. destruct IH as (Hl & Hline & Hch & Hin).
      repeat split; auto. intros Hi Hc.
      destruct (line cur - i) as [|k] eqn:Ek.
      * cbn [nth] in *. lia.
      * cbn [nth] in *. replace k with (line cur - S i) in * by lia.
        apply Hin; [lia|exact Hc].
Qed.

Lemma stripLoop_none_cursor (cur : Pos) (i : nat) (lines : list jsstring) :
  (forall l, In l lines -> includes l (marker id) = false) ->
  stripLoop id cur i lines = (lines, cur).
Proof.
  revert i; induction lines as [|l rest IH]; intros i H; [reflexivity|].
  cbn [stripLoop]. rewrite (H l) by now left.
  rewrite IH; [reflexivity|]. intros y Hy. apply H. now right.
Qed.

End Cursor.

(** X9. [deleteConnection] keeps the number of lines of the editor and the
    line of the cursor, and never moves the cursor to the right; a cursor
    that was on a line of the document and not past its end is so after,
    also on the line that lost its marker; and when no line holds the marker
    the editor is left as it was. *)
Theorem deleteConnection_keeps_cursor (id : jsstring) (v : vault) (e : Editor) :
  exists e',
    snd (deleteConnection id v (Some e)) = Some e'
    /\ length (doc e') = length (doc e)
    /\ line (cursor e') = line (cursor e)
    /\ ch (cursor e') <= ch (cursor e)
    /\ (cursorInside e -> cursorInside e')
    /\ ((forall l, In l (doc e) -> includes l (marker id) = false) ->
        doc e' = doc e /\ cursor e' = cursor e).
Proof.
  exists (stripMarker id e). split; [reflexivity|].
  pose proof (stripLoop_cursor id (cursor e) 0 (doc e)) as H.
  pose proof (stripLoop_none_cursor id (cursor e) 0 (doc e)) as Hn.
  unfold stripMarker.
  destruct (stripLoop id (cursor e) 0 (doc e)) as [lines' c].
  cbn [fst snd doc cursor] in *. destruct H as (Hl & Hline & Hch & Hin).
  split; [exact Hl|]. split; [exact Hline|]. split; [exact Hch|]. split.
  - unfold cursorInside. cbn [doc cursor]. intros [Hin1 Hin2]. split.
    + rewrite Hl, Hline. exact Hin1.
    + rewrite Hline. rewrite Nat.sub_0_r in Hin. apply Hin; [lia|exact Hin2].
  - intros Hno. specialize (Hn Hno). now injection Hn as -> ->.
Qed.

(** X16. For an id made of digits, the edit of a line never makes it
    longer, and it leaves the line as it is exactly when the line does not
    hold the marker: a line that holds it comes out shorter. *)
Theorem stripTag_shrinks (id l : jsstring) :
  forallb is_digit id = true ->
  length (stripTag id l) <= length l
  /\ (stripTag id l = l <-> includes l (marker id) = false)
  /\ (includes l (marker id) = true -> length (stripTag id l) < length l).
Proof.
  intros _. unfold stripTag.
  assert (Hs : includes l (marker id) = true ->
               length (replaceTag (marker id) 0 l) < length l).
  { now apply (replaceTag_shorter (marker id) 40%N
                 (str "fg:" ++ id ++ [RPAREN])). }
  split; [apply replaceTag_length|]. split; [|exact Hs].
  split; [|apply replaceTag_absent].
  intros E. destruct (includes l (marker id)); [|reflexivity].
  specialize (Hs eq_refl). rewrite E in Hs. lia.
Qed.

Lemma stripTag_shrinks_witness :
  length (stripTag (str "123") (str "  text (fg:123) more"))
  < length (str "  text (fg:123) more").
Proof.
  apply (stripTag_shrinks (str "123") (str "  text (fg:123) more")).
  - reflexivity.
  - reflexivity.
Defined.

(** ** From the new marker to its row *)

Section Button.

Lemma sliceString_all (text : jsstring) :
  sliceString text 0 (length text) = text.
Proof. unfold sliceString. rewrite Nat.sub_0_r. apply firstn_all. Qed.

End Button.

(** X10. The text that [createLink] puts in place of the selection holds
    the marker of the new id: wherever it stands in a document,
    [buildDecorations] over the whole document yields a button for it that
    carries the new id, one code unit after the start of the inserted text;
    and on the file just created, with a sanitized relevance that does not
    hold the separator, the click on this button opens the display of the
    sanitized claim and relevance. *)
Theorem created_marker_opens_row (now : N) (c r a b : jsstring) :
  includes (sanitize r) SEPARATOR = false ->
  let id := newId now in
  let created := createLink now c r None in
  let document := a ++ snd created ++ b in
  In {| from := length a + 1;
        to := length a + 1 + length (marker id);
        widget := id |}
     (buildDecorations document [(0, length document)])
  /\ onclick id (fst created)
     = Opened {| modalId := id;
                 modalClaim := sanitize c;
                 modalRelevances := firstItems (sanitize r) |}.
Proof.
  intros Hr id created document.
  destruct (newId_digits now) as (Hne & Hd & _). fold id in Hne, Hd. split.
  - unfold buildDecorations. cbn [flat_map fst snd]. rewrite app_nil_r.
    rewrite sliceString_all. unfold document, created. cbn [createLink snd].
    fold id.
    replace (a ++ ([SP] ++ marker id ++ [SP]) ++ b)
      with ((a ++ [SP]) ++ marker id ++ ([SP] ++ b))
      by (now rewrite <- !app_assoc).
    replace (length a + 1) with (0 + length (a ++ [SP]))
      by (rewrite length_app; simpl; lia).
    apply execAll_complete; auto. lia.
  - unfold onclick.
    assert (Hread : getRelevanceData id (fst created)
                    = Some {| claim := sanitize c;
                              relevances := firstItems (sanitize r) |}).
    { apply read_appended_row.
      - apply header_last_line_empty.
      - apply new_row_no_newline, digits_no_char; auto.
      - intros l. now apply header_has_no_key.
      - apply rowLine_key.
      - apply decodeLine_new_row; [|exact Hr]. apply digits_no_char; auto. }
    now rewrite Hread.
Qed.

Lemma created_marker_opens_row_witness :
  onclick (str "123456")
    (fst (createLink 1730000123456 (str "Claim A") (str "Reason 1") None))
  = Opened {| modalId := str "123456";
              modalClaim := str "Claim A";
              modalRelevances := [str "Reason 1"] |}.
Proof.
  apply (created_marker_opens_row 1730000123456 (str "Claim A")
           (str "Reason 1") [] []).
  reflexivity.
Defined.

(** X13. The key of an id is looked for anywhere in a line, not in the
    first column only: the row of one id whose relevance is the text of
    another id, or of the same, holds the key of that id, and in a file
    made of this row [getRelevanceData] answers it for that id. *)
Theorem getRelevanceData_matches_cell (id1 c id2 : jsstring) :
  sanitize id1 = id1 -> sanitize c = c -> sanitize id2 = id2 ->
  id2 <> [] -> includes id2 SEPARATOR = false ->
  includes (rowLine id1 c id2) (rowKey id2) = true
  /\ getRelevanceData id2 (Some (rowLine id1 c id2))
     = Some {| claim := c; relevances := [id2] |}.
Proof.
  intros H1 Hc H2 Hne Hs.
  assert (Hk : includes (rowLine id1 c id2) (rowKey id2) = true).
  { unfold rowLine, rowKey.
    replace ([PIPE; SP] ++ id1 ++ [SP; PIPE; SP] ++ c ++ [SP; PIPE; SP]
             ++ id2 ++ [SP; PIPE])
      with (([PIPE; SP] ++ id1 ++ [SP; PIPE; SP] ++ c ++ [SP])
            ++ ([PIPE; SP] ++ id2 ++ [SP; PIPE]) ++ [])
      by (repeat (rewrite <- ?app_assoc; simpl); reflexivity).
    apply includes_app. }
  split; [exact Hk|].
  unfold getRelevanceData. rewrite split_char_none.
  - cbn [scanLines]. rewrite Hk.
    pose proof (decodeLine_new_row id1 c id2 (sanitized_no_pipe id1 H1)) as Hd.
    rewrite Hc, H2 in Hd. rewrite (Hd Hs).
    destruct id2; [contradiction|reflexivity].
  - rewrite <- Hc, <- H2. apply new_row_no_newline.
    now apply sanitized_no_newline.
Qed.

Lemma getRelevanceData_matches_cell_witness :
  getRelevanceData (str "222222") (Some (str "| 111111 | c | 222222 |"))
  = Some {| claim := str "c"; relevances := [str "222222"] |}.
Proof.
  apply (getRelevanceData_matches_cell (str "111111") (str "c") (str "222222"));
    (reflexivity || discriminate).
Defined.

(** ** The display and the file *)

Section Display.

(** The file that [appendRelevance] writes, on a file whose first line with
    the key is the row of the id, and what is read there. *)
Lemma appendRelevance_row (id c text : jsstring) (items : list jsstring)
    (pl pr : jsstring) (pre post : list jsstring) :
  sanitize id = id -> sanitize c = c -> Forall goodItem items ->
  sanitize text <> [] -> endSafe (sanitize text) ->
  spaces pl -> spaces pr ->
  Forall no_newline pre -> Forall no_newline post ->
  (forall x, In x pre -> includes x (rowKey id) = false) ->
  appendRelevance id text
    (Some (join (pre ++ rowOf id c (pl ++ join items SEPARATOR ++ pr) :: post)
                [NL]))
  = Some (join (pre
                ++ rowOf id c
                     (match items with [] => [SP; SP] | _ :: _ => [SP] end
                      ++ join (items ++ [sanitize text]) SEPARATOR ++ [SP])
                :: map (appendLine id (sanitize text)) post) [NL])
  /\ getRelevanceData id
       (appendRelevance id text
          (Some (join (pre ++ rowOf id c (pl ++ join items SEPARATOR ++ pr)
                       :: post) [NL])))
     = Some {| claim := c; relevances := items ++ [sanitize text] |}.
Proof.
  intros Hid Hc HF Htne Hts Hpl Hpr Hpre Hpost Hkey.
  set (t := sanitize text) in *.
  set (lead := match items with [] => [SP; SP] | _ :: _ => [SP] end).
  pose proof (spaces_ws pl Hpl) as Hwl. pose proof (spaces_ws pr Hpr) as Hwr.
  pose proof (sanitized_no_pipe id Hid) as Hidp.
  pose proof (sanitized_no_newline id Hid) as Hidn.
  assert (Hgt : goodItem t).
  { repeat split; auto. apply sanitize_idem. }
  assert (HF' : Forall goodItem (items ++ [t])).
  { apply Forall_app; split; [exact HF|now constructor]. }
  assert (Hcell : no_pipe (pl ++ join items SEPARATOR ++ pr)).
  { apply cell_no_char; auto using goodItem_no_pipe. apply separator_plain. }
  assert (Hlead : forallb is_ws lead = true) by (unfold lead; now destruct items).
  assert (Hrow : appendLine id t (rowOf id c (pl ++ join items SEPARATOR ++ pr))
                 = rowOf id c (lead ++ join (items ++ [t]) SEPARATOR ++ [SP])).
  { rewrite appendLine_rowOf; auto using sanitized_no_pipe.
    now rewrite appendCell_items. }
  destruct (rewrite_then_read (appendLine id t) (rowKey id) pre
              (rowOf id c (pl ++ join items SEPARATOR ++ pr)) post
              {| claim := c; relevances := items ++ [t] |}) as [Hfile Hread].
  - intros l. apply appendLine_no_newline.
    now apply sanitized_no_newline, sanitize_idem.
  - intros l. apply appendLine_other.
  - exact Hpre.
  - apply row_no_newline; auto using spaces_no_newline.
  - exact Hpost.
  - exact Hkey.
  - rewrite Hrow. apply rowOf_key.
  - rewrite Hrow. now apply decodeLine_items.
  - split; [|exact Hread].
    unfold appendRelevance. f_equal.
    etransitivity; [exact Hfile|]. now rewrite Hrow.
Qed.

Lemma itemsWithout_nat (n : nat) (items : list jsstring) :
  itemsWithout (Z.of_nat n) items = splice1 n items.
Proof.
  unfold itemsWithout.
  destruct (Z.leb_spec 0 (Z.of_nat n)); [|lia].
  destruct (Z.ltb_spec (Z.of_nat n) (Z.of_nat (length items))) as [Hlt|Hge].
  - cbn [andb]. now rewrite Nat2Z.id.
  - cbn [andb]. unfold splice1.
    rewrite firstn_all2, skipn_all2 by lia. now rewrite app_nil_r.
Qed.

Lemma splice1_last (A : Type) (l : list A) (x : A) :
  splice1 (length l) (l ++ [x]) = l.
Proof.
  unfold splice1. rewrite firstn_app, Nat.sub_diag, firstn_all.
  rewrite skipn_all2 by (rewrite length_app; simpl; lia).
  cbn [firstn]. now rewrite !app_nil_r.
Qed.

Lemma cellSafe_spaces_lead (items : list jsstring) :
  spaces match items with [] => [SP; SP] | _ :: _ => [SP] end.
Proof. now destruct items. Qed.

End Display.

(** X11. The display and the file stay in step when a note is added. Let
    the file hold, as the first line with the key, the row of the id of the
    display, with the claim and the items that the display lists, all left
    as they are by [sanitize], the items not empty and none holding the
    separator or ending with the separator less its last space, and the same
    for the sanitized input. When the input is not blank, the display lists
    the old items and the sanitized input, and [getRelevanceData] reads
    these very items in the file; when the input is blank, the file and the
    display stay as they were. *)
Theorem addNote_keeps_display_in_step (input c : jsstring) (m : DisplayModal)
    (pl pr : jsstring) (pre post : list jsstring) :
  sanitize (modalId m) = modalId m -> sanitize c = c ->
  Forall goodItem (modalRelevances m) -> endSafe (sanitize input) ->
  spaces pl -> spaces pr ->
  Forall no_newline pre -> Forall no_newline post ->
  (forall x, In x pre -> includes x (rowKey (modalId m)) = false) ->
  let v :=
    Some (join (pre
                ++ rowOf (modalId m) c
                     (pl ++ join (modalRelevances m) SEPARATOR ++ pr)
                :: post) [NL]) in
  let after := addNote input m v in
  ((0 <? length (trim input)) = true ->
   modalRelevances (snd after) = modalRelevances m ++ [sanitize input]
   /\ getRelevanceData (modalId m) (fst after)
      = Some {| claim := c; relevances := modalRelevances (snd after) |})
  /\ ((0 <? length (trim input)) = false -> after = (v, m)).
Proof.
  intros Hid Hc HF Hts Hpl Hpr Hpre Hpost Hkey v after. unfold after, addNote.
  split; intros Hg; rewrite Hg; [|reflexivity].
  cbn [fst snd modalRelevances]. split; [reflexivity|].
  apply appendRelevance_row; auto.
  intros Hs. unfold sanitize in Hs.
  apply (proj1 (trim_nil_iff _)) in Hs. rewrite replaced_ws in Hs.
  apply (proj2 (trim_nil_iff _)) in Hs. rewrite Hs in Hg. discriminate.
Qed.

Lemma addNote_keeps_display_in_step_witness :
  let m := {| modalId := str "123456"; modalClaim := str "Claim A";
              modalRelevances := [str "Reason 1"] |} in
  let after :=
    addNote (str " Reason 2 ") m
      (Some (str "| 123456 | Claim A | Reason 1 |" ++ [NL])) in
  modalRelevances (snd after) = [str "Reason 1"; str "Reason 2"]
  /\ getRelevanceData (str "123456") (fst after)
     = Some {| claim := str "Claim A";
               relevances := modalRelevances (snd after) |}.
Proof.
  apply (addNote_keeps_display_in_step (str " Reason 2 ") (str "Claim A")
           {| modalId := str "123456"; modalClaim := str "Claim A";
              modalRelevances := [str "Reason 1"] |}
           [SP] [SP] [] [[]]).
  - reflexivity.
  - reflexivity.
  - repeat constructor; discriminate.
  - reflexivity.
  - reflexivity.
  - reflexivity.
  - constructor.
  - repeat constructor. intros [].
  - intros x [].
  - reflexivity.
Defined.

(** X12. The display and the file stay in step when a note is deleted.
    Let the file hold, as the first line with the key, the row of the id of
    the display, with the claim and the items that the display lists, all
    left as they are by [sanitize], the items not empty and none of them,
    written between two spaces, holding the separator. After the click on
    the item at an index, the display lists the items but this one, and
    [getRelevanceData] reads these very items in the file. *)
Theorem deleteNote_keeps_display_in_step (index : nat) (c : jsstring)
    (m : DisplayModal) (pl pr : jsstring) (pre post : list jsstring) :
  sanitize (modalId m) = modalId m -> sanitize c = c ->
  Forall safeItem (modalRelevances m) ->
  spaces pl -> spaces pr ->
  Forall no_newline pre -> Forall no_newline post ->
  (forall x, In x pre -> includes x (rowKey (modalId m)) = false) ->
  let v :=
    Some (join (pre
                ++ rowOf (modalId m) c
                     (pl ++ join (modalRelevances m) SEPARATOR ++ pr)
                :: post) [NL]) in
  let after := deleteNote index m v in
  modalRelevances (snd after)
  = firstn index (modalRelevances m) ++ skipn (S index) (modalRelevances m)
  /\ getRelevanceData (modalId m) (fst after)
     = Some {| claim := c; relevances := modalRelevances (snd after) |}.
Proof.
  intros Hid Hc HS Hpl Hpr Hpre Hpost Hkey v after.
  unfold after, deleteNote. cbn [fst snd modalRelevances].
  split; [reflexivity|].
  destruct (removeRelevanceItem_removes (modalId m) c (modalRelevances m)
              pl pr (Z.of_nat index) pre post Hid Hc HS Hpl Hpr Hpre Hpost Hkey)
    as (_ & Hread & _).
  rewrite itemsWithout_nat in Hread. exact Hread.
Qed.

Lemma deleteNote_keeps_display_in_step_witness :
  let m := {| modalId := str "123456"; modalClaim := str "Claim A";
              modalRelevances := [str "a"; str "b"; str "c"] |} in
  let after :=
    deleteNote 1 m (Some (str "| 123456 | Claim A | a <br> b <br> c |" ++ [NL])) in
  modalRelevances (snd after) = [str "a"; str "c"]
  /\ getRelevanceData (str "123456") (fst after)
     = Some {| claim := str "Claim A";
               relevances := modalRelevances (snd after) |}.
Proof.
  apply (deleteNote_keeps_display_in_step 1 (str "Claim A")
           {| modalId := str "123456"; modalClaim := str "Claim A";
              modalRelevances := [str "a"; str "b"; str "c"] |}
           [SP] [SP] [] [[]]).
  - reflexivity.
  - reflexivity.
  - repeat constructor; discriminate.
  - reflexivity.
  - reflexivity.
  - constructor.
  - repeat constructor. intros [].
  - intros x [].
Defined.

(** X14. Adding an item and then removing the last item gives the items
    back. Let the file hold, as the first line with the key, the row of the
    id, with a claim and items left as they are by [sanitize], not empty
    and none of them, written between two spaces, holding the separator,
    and the same for the sanitized text. Then after [appendRelevance] with
    the text and [removeRelevanceItem] at the index of the new item,
    [getRelevanceData] reads the claim and the items of before. *)
Theorem append_then_remove_last (id c text : jsstring) (items : list jsstring)
    (pl pr : jsstring) (pre post : list jsstring) :
  sanitize id = id -> sanitize c = c -> Forall safeItem items ->
  sanitize text <> [] -> cellSafe (sanitize text) ->
  spaces pl -> spaces pr ->
  Forall no_newline pre -> Forall no_newline post ->
  (forall x, In x pre -> includes x (rowKey id) = false) ->
  let v :=
    Some (join (pre ++ rowOf id c (pl ++ join items SEPARATOR ++ pr) :: post)
               [NL]) in
  getRelevanceData id v = Some {| claim := c; relevances := items |}
  /\ getRelevanceData id
       (removeRelevanceItem id (Z.of_nat (length items))
          (appendRelevance id text v))
     = Some {| claim := c; relevances := items |}.
Proof.
  intros Hid Hc HS Htne Hts Hpl Hpr Hpre Hpost Hkey v.
  pose proof (safeItem_good items HS) as HF. split.
  - unfold v, getRelevanceData. rewrite lines_of_join.
    + apply scanLines_first; auto using rowOf_key.
      apply decodeLine_items; auto using sanitized_no_pipe, spaces_ws.
    + now destruct pre.
    + apply Forall_app; split; [exact Hpre|]. constructor; [|exact Hpost].
      apply row_no_newline;
        auto using sanitized_no_newline, spaces_no_newline, spaces_ws.
  - destruct (appendRelevance_row id c text items pl pr pre post) as [Hfile _];
      auto using cellSafe_endSafe.
    unfold v. rewrite Hfile.
    destruct (removeRelevanceItem_removes id c (items ++ [sanitize text])
                match items with [] => [SP; SP] | _ :: _ => [SP] end [SP]
                (Z.of_nat (length items)) pre
                (map (appendLine id (sanitize text)) post))
      as (_ & Hread & _); auto using cellSafe_spaces_lead.
    + apply Forall_app; split; [exact HS|]. constructor; [|constructor].
      repeat split; auto. apply sanitize_idem.
    + reflexivity.
    + apply Forall_forall. intros l Hl.
      apply in_map_iff in Hl as (l0 & <- & Hl0).
      apply appendLine_no_newline; [apply sanitize_no_newline|].
      revert l0 Hl0. now apply Forall_forall.
    + rewrite itemsWithout_nat, splice1_last in Hread. exact Hread.
Qed.

Lemma append_then_remove_last_witness :
  getRelevanceData (str "123456")
    (removeRelevanceItem (str "123456") 1
       (appendRelevance (str "123456") (str "Reason 2")
          (Some (str "| 123456 | Claim A | Reason 1 |" ++ [NL]))))
  = Some {| claim := str "Claim A"; relevances := [str "Reason 1"] |}.
Proof.
  apply (append_then_remove_last (str "123456") (str "Claim A")
           (str "Reason 2") [str "Reason 1"] [SP] [SP] [] [[]]).
  - reflexivity.
  - reflexivity.
  - repeat constructor; discriminate.
  - discriminate.
  - reflexivity.
  - reflexivity.
  - reflexivity.
  - constructor.
  - repeat constructor. intros [].
  - intros x [].
Defined.
